(** * Find-and-replace over the bytes of a resource

    Two layers are embedded here.

    - [Engine]: the byte scanner, the replacement planner and the resource
      mutator.  The repository's front end only calls this engine
      ([$selectedResource.find_and_replace(...)]); its body is not among the
      sources at hand, so it is modelled from the specification (sections 3,
      4 and 7).
    - [View]: the script block of [frontend/src/FindReplaceView.svelte]
      (lines 125-163) together with the [{#if errorMessage}] block of its
      template, and the part of [JSON.parse] the error handler relies on. *)

From Stdlib Require Import Strings.String Strings.Ascii Strings.Byte.
From Stdlib Require Import List Arith Lia Bool NArith ZArith.
From Stdlib Require Import Sorting.Sorted.
Import ListNotations.

(* ================================================================== *)
(** ** The engine *)
(* ================================================================== *)

Module Engine.

(** Modelled from the spec: ResourceBuffer (section 3), "an ordered
    sequence of bytes" with zero-based offsets. *)
Definition ResourceBuffer := list byte.

(** Modelled from the spec: SearchPattern (section 3), "an immutable,
    non-empty byte sequence".  Non-emptiness is carried by the type: a
    first byte and the remaining ones. *)
Record SearchPattern := mkSearchPattern {
  sp_first : byte;
  sp_rest : list byte
}.

Definition sp_bytes (p : SearchPattern) : list byte := sp_first p :: sp_rest p.
Definition sp_len (p : SearchPattern) : nat := length (sp_bytes p).

(** Modelled from the spec: ReplacementPattern (section 3), a byte
    sequence that "may be empty". *)
Definition ReplacementPattern := list byte.

(** Modelled from the spec: Occurrence (section 3), "a (start offset,
    length) pair". *)
Record Occurrence := mkOccurrence {
  occ_start : nat;
  occ_len : nat
}.

(** Modelled from the spec: the error taxonomy (section 7). *)
Inductive ValidationError := EmptyPattern | Overflow.
Inductive MutationError := IllegalPlan | CommitFailed.

(** Modelled from the spec: the legality verdict of a plan (section 3),
    "allowed / denied-with-reason". *)
Inductive Verdict := Allowed | Denied (reason : ValidationError).

(** Modelled from the spec: the response of a request (section 6), success
    or a failure carrying the error. *)
Inductive EngineError :=
| Validation (e : ValidationError)
| Mutation (e : MutationError).

Inductive Response := Success | Failure (e : EngineError).

(** Modelled from the spec: ReplacementPlan (section 3), "the ordered
    sequence of Occurrences paired with the fixed ReplacementPattern, plus
    a legality verdict". *)
Record ReplacementPlan := mkPlan {
  plan_occurrences : list Occurrence;
  plan_replacement : ReplacementPattern;
  plan_legal : Verdict
}.

Fixpoint bytes_eqb (a b : list byte) : bool :=
  match a, b with
  | [], [] => true
  | x :: a', y :: b' => Byte.eqb x y && bytes_eqb a' b'
  | _, _ => false
  end.

(** The bytes of [buffer] in the region [start, start + len). *)
Definition slice (buffer : ResourceBuffer) (start len : nat) : list byte :=
  firstn len (skipn start buffer).

(** Modelled from the spec: the test "for an exact byte match of [pattern]"
    at one position of the ByteScanner (section 4.1); the scanner's code is
    not among the sources. *)
Definition matches_at (buffer : ResourceBuffer) (pattern : list byte)
    (pos : nat) : bool :=
  bytes_eqb (slice buffer pos (length pattern)) pattern.

(** Modelled from the spec: the scan loop of the ByteScanner (section 4.1),
    whose code is not among the sources: "linear left-to-right scan; at each
    position test for an exact byte match of pattern; on match, record an
    Occurrence and advance the scan cursor to the end of the match;
    otherwise advance by one byte".  [fuel] bounds the number of loop
    iterations; [pos] is the scan cursor. *)
Fixpoint scan (fuel : nat) (buffer : ResourceBuffer) (pattern : SearchPattern)
    (pos : nat) : list Occurrence :=
  match fuel with
  | O => []
  | S fuel' =>
      if length buffer <? pos + sp_len pattern then []
      else if matches_at buffer (sp_bytes pattern) pos
      then mkOccurrence pos (sp_len pattern)
             :: scan fuel' buffer pattern (pos + sp_len pattern)
      else scan fuel' buffer pattern (pos + 1)
  end.

(** Modelled from the spec: [findAll(buffer, pattern)] of the ByteScanner
    (section 4.1), whose code is not among the sources.  The cursor moves
    forward by at least one byte per iteration, so [length buffer + 1]
    iterations always suffice (see [scan_fuel_irrelevant]). *)
Definition findAll (buffer : ResourceBuffer) (pattern : SearchPattern)
    : list Occurrence :=
  scan (S (length buffer)) buffer pattern 0.

Section Planner.

(** "Byte encoding is implementation-defined but must be consistent between
    find and replace sides": one encoder, shared by both. *)
Variable text : Type.
Variable encode : text -> list byte.

(** Modelled from the spec: derivation of the SearchPattern (section 4.2);
    [None] when the text encodes to zero bytes. *)
Definition searchPattern (findText : text) : option SearchPattern :=
  match encode findText with
  | [] => None
  | b :: bs => Some (mkSearchPattern b bs)
  end.

(** Modelled from the spec: derivation of the ReplacementPattern (section
    4.2): "if nullTerminate is true, appends one zero byte". *)
Definition replacementPattern (replaceText : text) (nullTerminate : bool)
    : ReplacementPattern :=
  if nullTerminate then encode replaceText ++ [x00] else encode replaceText.

(** Modelled from the spec: the length-policy check "applied per
    occurrence" (section 4.2). *)
Definition occurrence_legal (replacement : ReplacementPattern)
    (allowOverflow : bool) (o : Occurrence) : bool :=
  if length replacement <=? occ_len o then true else allowOverflow.

(** Modelled from the spec: [plan(buffer, findText, replaceText,
    nullTerminate, allowOverflow)] of the ReplacementPlanner (section 4.2),
    whose code is not among the sources. *)
Definition plan (buffer : ResourceBuffer) (findText replaceText : text)
    (nullTerminate allowOverflow : bool)
    : ValidationError + ReplacementPlan :=
  let replacement := replacementPattern replaceText nullTerminate in
  match searchPattern findText with
  | None => inl EmptyPattern
  | Some pattern =>
      let occurrences := findAll buffer pattern in
      if forallb (occurrence_legal replacement allowOverflow) occurrences
      then inr (mkPlan occurrences replacement Allowed)
      else inl Overflow
  end.

(** Modelled from the spec: the assembly loop of the ResourceMutator
    (section 4.3): unaffected regions are copied verbatim and the
    replacement is substituted at each occurrence, in ascending order, with
    offsets taken against the original buffer.  [cursor] is the end of the
    last region already emitted. *)
Fixpoint assemble (buffer : ResourceBuffer) (cursor : nat)
    (occurrences : list Occurrence) (replacement : ReplacementPattern)
    : ResourceBuffer :=
  match occurrences with
  | [] => skipn cursor buffer
  | o :: rest =>
      slice buffer cursor (occ_start o - cursor)
        ++ replacement
        ++ assemble buffer (occ_start o + occ_len o) rest replacement
  end.

(** Modelled from the spec: [apply(buffer, plan)] of the ResourceMutator
    (section 4.3), whose code is not among the sources. *)
Definition apply (buffer : ResourceBuffer) (p : ReplacementPlan)
    : MutationError + ResourceBuffer :=
  match plan_legal p with
  | Denied _ => inl IllegalPlan
  | Allowed =>
      inr (assemble buffer 0 (plan_occurrences p) (plan_replacement p))
  end.

(** Modelled from the spec: the request of section 6. *)
Record FindReplaceRequest := mkRequest {
  findText : text;
  replaceText : text;
  nullTerminate : bool;
  allowOverflow : bool
}.

(** Modelled from the spec: the commit of a new buffer to the owning
    resource (section 4.3) is the external collaborator's; it either
    accepts the buffer or not. *)
Variable commit : ResourceBuffer -> bool.

(** Modelled from the spec: one request through the state machine
    Received, Planned, Denied or Applied, Completed (section 4.3); the
    result is "either a new buffer or an unmodified original plus an
    error" (section 3). *)
Definition process_request (buffer : ResourceBuffer)
    (req : FindReplaceRequest) : ResourceBuffer * Response :=
  match plan buffer (findText req) (replaceText req)
             (nullTerminate req) (allowOverflow req) with
  | inl e => (buffer, Failure (Validation e))
  | inr p =>
      match apply buffer p with
      | inl e => (buffer, Failure (Mutation e))
      | inr buffer' =>
          if commit buffer' then (buffer', Success)
          else (buffer, Failure (Mutation CommitFailed))
      end
  end.

End Planner.

Arguments searchPattern {text} encode findText.
Arguments replacementPattern {text} encode replaceText nullTerminate.
Arguments plan {text} encode buffer findText replaceText
  nullTerminate allowOverflow.
Arguments mkRequest {text} findText replaceText nullTerminate allowOverflow.
Arguments findText {text} f.
Arguments replaceText {text} f.
Arguments nullTerminate {text} f.
Arguments allowOverflow {text} f.
Arguments process_request {text} encode commit buffer req.

(** *** The vocabulary of the testable properties (spec section 8) *)

(** An occurrence of [pattern] found at or after [pos]: it has the
    pattern's length, lies inside the buffer, and the buffer's bytes there
    are the pattern's. *)
Definition good_occurrence (buffer : ResourceBuffer) (pattern : SearchPattern)
    (pos : nat) (o : Occurrence) : Prop :=
  occ_len o = sp_len pattern
  /\ pos <= occ_start o
  /\ occ_start o + occ_len o <= length buffer
  /\ slice buffer (occ_start o) (occ_len o) = sp_bytes pattern.

(** [a] ends no later than [b] starts: the two regions do not overlap and
    [a] comes first. *)
Definition before (a b : Occurrence) : Prop :=
  occ_start a + occ_len a <= occ_start b.

Definition starts_before (a b : Occurrence) : Prop :=
  occ_start a < occ_start b.

(** The buffer holds the pattern's bytes at some offset. *)
Definition contains (buffer : ResourceBuffer) (pattern : SearchPattern)
    : Prop :=
  exists pos, matches_at buffer (sp_bytes pattern) pos = true.

(** [p] is a contiguous part of [l]. *)
Definition occurs_in (p l : list byte) : Prop :=
  exists pre post, l = pre ++ p ++ post.

(** Two byte sequences with no byte in common. *)
Definition disjoint (a b : list byte) : Prop :=
  forall x, In x a -> ~ In x b.

(** Text encoded byte for byte (spec section 9: the documented default). *)
Definition raw (s : string) : list byte := list_byte_of_string s.

End Engine.

(* ================================================================== *)
(** ** JavaScript values and [JSON.parse] *)
(* ================================================================== *)

Module JS.

(** A JavaScript string is a sequence of UTF-16 code units. *)
Definition jsstring := list N.

(** The code units of an ASCII literal. *)
Definition str (s : string) : jsstring :=
  map N_of_ascii (list_ascii_of_string s).

(** The exact decimal value of a JSON number literal:
    (-1)^[num_neg] * [num_mantissa] * 10^[num_exp10].  The sign is kept
    apart so that [-0] stays distinct from [0]. *)
Record number := mkNumber {
  num_neg : bool;
  num_mantissa : N;
  num_exp10 : Z
}.

Local Unset Elimination Schemes.
Inductive value :=
| VUndefined
| VNull
| VBool (b : bool)
| VNumber (n : number)
| VString (s : jsstring)
| VArray (elems : list value)
| VObject (props : list (jsstring * value)).
Local Set Elimination Schemes.

Inductive exception := SyntaxError | TypeError.

(** Completion of an expression: a value, or a thrown exception. *)
Inductive completion (A : Type) :=
| Normal (a : A)
| Throw (e : exception).
Arguments Normal {A} a.
Arguments Throw {A} e.

Definition bind {A B} (m : completion A) (k : A -> completion B)
    : completion B :=
  match m with
  | Normal a => k a
  | Throw e => Throw e
  end.

(** [try { body } catch (_) { handler }] *)
Definition try_catch {A} (body : completion A) (handler : exception -> A) : A :=
  match body with
  | Normal a => a
  | Throw e => handler e
  end.

Fixpoint jsstring_eqb (a b : jsstring) : bool :=
  match a, b with
  | [], [] => true
  | x :: a', y :: b' => N.eqb x y && jsstring_eqb a' b'
  | _, _ => false
  end.

(** Own property lookup on an object built by [JSON.parse]: members are
    kept in source order and a later duplicate key overwrites an earlier
    one, so the last binding is the property's value. *)
Fixpoint own_property (props : list (jsstring * value)) (key : jsstring)
    : option value :=
  match props with
  | [] => None
  | (k, v) :: rest =>
      match own_property rest key with
      | Some v' => Some v'
      | None => if jsstring_eqb k key then Some v else None
      end
  end.

(** [v.message]: property access throws a TypeError on [undefined] and
    [null]; booleans, numbers, strings and arrays have no property of that
    name, their own or inherited, and neither has an object without it. *)
Definition get_message (v : value) : completion value :=
  match v with
  | VUndefined | VNull => Throw TypeError
  | VBool _ | VNumber _ | VString _ | VArray _ => Normal VUndefined
  | VObject props =>
      match own_property props (str "message") with
      | Some m => Normal m
      | None => Normal VUndefined
      end
  end.

(** A number literal denotes the double nearest to its decimal value; that
    double is zero exactly when the value is zero or at most 2^-1075 in
    magnitude (half of the least subnormal, ties going to the even zero). *)
Definition number_is_zero (n : number) : bool :=
  (num_mantissa n =? 0)%N
  || ((num_exp10 n <? 0)%Z
      && (Z.of_N (num_mantissa n) * 2 ^ 1075 <=? 10 ^ (- num_exp10 n))%Z).

(** ToBoolean, as used by a template's [{#if ...}]. *)
Definition ToBoolean (v : value) : bool :=
  match v with
  | VUndefined | VNull => false
  | VBool b => b
  | VNumber n => negb (number_is_zero n)
  | VString s => match s with [] => false | _ => true end
  | VArray _ | VObject _ => true
  end.

(** *** [JSON.parse]

    The JSON grammar (ECMA-404, as ECMA-262 takes it for [JSON.parse]
    without a reviver) read by a pushdown automaton: one step per code
    unit, a stack of the containers still open. *)

(** A container still open: an array with its elements so far; an object
    between members; an object whose member [key] awaits its value.
    Elements and members are kept most recent first. *)
Inductive frame :=
| FArray (done : list value)
| FObject (done : list (jsstring * value))
| FMember (done : list (jsstring * value)) (key : jsstring).

(** Position inside a number literal: an optional minus sign; an integer
    part, either a lone 0 or a digit from 1 to 9 followed by any digits; an
    optional fraction, a dot and at least one digit; an optional exponent,
    e or E, an optional sign and at least one digit. *)
Inductive nphase :=
| PMinus      (* after "-": a digit must follow *)
| PZero       (* integer part is "0" *)
| PInt        (* inside the integer part *)
| PDot        (* after ".": a digit must follow *)
| PFrac       (* inside the fraction *)
| PE          (* after "e": a sign or a digit must follow *)
| PESign      (* after the exponent's sign: a digit must follow *)
| PEDigits.   (* inside the exponent *)

(** The digits read so far. *)
Record numacc := mkNumacc {
  acc_neg : bool;        (* a leading "-" *)
  acc_mantissa : N;      (* integer and fraction digits, as one integer *)
  acc_fraction : Z;      (* number of fraction digits *)
  acc_eneg : bool;       (* the exponent's sign is "-" *)
  acc_exponent : N       (* the exponent's digits *)
}.

Definition numacc_value (a : numacc) : number :=
  mkNumber (acc_neg a) (acc_mantissa a)
    ((if acc_eneg a then - Z.of_N (acc_exponent a)
      else Z.of_N (acc_exponent a)) - acc_fraction a)%Z.

Inductive mode :=
| MValue                                  (* a value must follow *)
| MArrayStart                             (* after "[" *)
| MObjectStart                            (* after "{" *)
| MKey                                    (* after "," in an object *)
| MColon (key : jsstring)                 (* after a member's key *)
| MAfterElement                           (* after an element or member *)
| MDone (v : value)                       (* after the top-level value *)
| MLiteral (rest : jsstring) (v : value)  (* inside true, false or null *)
| MString (is_key : bool) (acc : jsstring)
| MEscape (is_key : bool) (acc : jsstring)
| MUnicode (is_key : bool) (acc : jsstring) (read : nat) (code : N)
| MNumber (phase : nphase) (acc : numacc).

Definition pstate := (mode * list frame)%type.

Definition is_ws (c : N) : bool :=
  (c =? 32)%N || (c =? 9)%N || (c =? 10)%N || (c =? 13)%N.

Definition is_digit (c : N) : bool := (48 <=? c)%N && (c <=? 57)%N.

Definition digit_value (c : N) : N := (c - 48)%N.

Definition hex_value (c : N) : option N :=
  if is_digit c then Some (c - 48)%N
  else if (65 <=? c)%N && (c <=? 70)%N then Some (c - 55)%N
  else if (97 <=? c)%N && (c <=? 102)%N then Some (c - 87)%N
  else None.

(** A value is complete: it becomes the result, the next element of the
    array on top of the stack, or the value of the pending member. *)
Definition complete (v : value) (stack : list frame) : option pstate :=
  match stack with
  | [] => Some (MDone v, [])
  | FArray done :: below => Some (MAfterElement, FArray (v :: done) :: below)
  | FMember done key :: below =>
      Some (MAfterElement, FObject ((key, v) :: done) :: below)
  | FObject _ :: _ => None
  end.

(** A string is complete: a key waits for its colon, a value is complete. *)
Definition complete_string (is_key : bool) (s : jsstring)
    (stack : list frame) : option pstate :=
  if is_key then Some (MColon s, stack) else complete (VString s) stack.

(** The first code unit of a value. *)
Definition start_value (c : N) (stack : list frame) : option pstate :=
  if (c =? 123)%N then Some (MObjectStart, FObject [] :: stack)     (* { *)
  else if (c =? 91)%N then Some (MArrayStart, FArray [] :: stack)   (* [ *)
  else if (c =? 34)%N then Some (MString false [], stack)           (* quote *)
  else if (c =? 45)%N                                               (* - *)
  then Some (MNumber PMinus (mkNumacc true 0 0 false 0), stack)
  else if (c =? 48)%N                                               (* 0 *)
  then Some (MNumber PZero (mkNumacc false 0 0 false 0), stack)
  else if is_digit c
  then Some (MNumber PInt (mkNumacc false (digit_value c) 0 false 0), stack)
  else if (c =? 116)%N then Some (MLiteral (str "rue") (VBool true), stack)
  else if (c =? 102)%N then Some (MLiteral (str "alse") (VBool false), stack)
  else if (c =? 110)%N then Some (MLiteral (str "ull") VNull, stack)
  else None.

(** After an element, a member or the top-level value: white space, a
    comma, or the closing bracket of the container on top of the stack. *)
Definition step_after (st : pstate) (c : N) : option pstate :=
  match st with
  | (MDone v, stack) => if is_ws c then Some (MDone v, stack) else None
  | (MAfterElement, stack) =>
      if is_ws c then Some (MAfterElement, stack)
      else match stack with
           | FArray done :: below =>
               if (c =? 44)%N then Some (MValue, stack)                (* , *)
               else if (c =? 93)%N                                     (* ] *)
               then complete (VArray (rev done)) below
               else None
           | FObject done :: below =>
               if (c =? 44)%N then Some (MKey, stack)                  (* , *)
               else if (c =? 125)%N                                    (* } *)
               then complete (VObject (rev done)) below
               else None
           | _ => None
           end
  | _ => None
  end.

Definition add_mantissa (a : numacc) (c : N) (fraction : bool) : numacc :=
  mkNumacc (acc_neg a) (acc_mantissa a * 10 + digit_value c)
    (if fraction then acc_fraction a + 1 else acc_fraction a)%Z
    (acc_eneg a) (acc_exponent a).

Definition add_exponent (a : numacc) (c : N) : numacc :=
  mkNumacc (acc_neg a) (acc_mantissa a) (acc_fraction a)
    (acc_eneg a) (acc_exponent a * 10 + digit_value c).

Definition set_eneg (a : numacc) : numacc :=
  mkNumacc (acc_neg a) (acc_mantissa a) (acc_fraction a) true (acc_exponent a).

(** The literal may end in this phase. *)
Definition phase_final (p : nphase) : bool :=
  match p with
  | PZero | PInt | PFrac | PEDigits => true
  | _ => false
  end.

Definition is_e (c : N) : bool := (c =? 101)%N || (c =? 69)%N.

(** One code unit inside a number literal; [None] when the unit does not
    continue the literal. *)
Definition step_number (p : nphase) (a : numacc) (c : N)
    : option (nphase * numacc) :=
  match p with
  | PMinus =>
      if (c =? 48)%N then Some (PZero, a)
      else if is_digit c then Some (PInt, add_mantissa a c false)
      else None
  | PZero =>
      if (c =? 46)%N then Some (PDot, a)
      else if is_e c then Some (PE, a)
      else None
  | PInt =>
      if is_digit c then Some (PInt, add_mantissa a c false)
      else if (c =? 46)%N then Some (PDot, a)
      else if is_e c then Some (PE, a)
      else None
  | PDot =>
      if is_digit c then Some (PFrac, add_mantissa a c true) else None
  | PFrac =>
      if is_digit c then Some (PFrac, add_mantissa a c true)
      else if is_e c then Some (PE, a)
      else None
  | PE =>
      if (c =? 43)%N then Some (PESign, a)
      else if (c =? 45)%N then Some (PESign, set_eneg a)
      else if is_digit c then Some (PEDigits, add_exponent a c)
      else None
  | PESign =>
      if is_digit c then Some (PEDigits, add_exponent a c) else None
  | PEDigits =>
      if is_digit c then Some (PEDigits, add_exponent a c) else None
  end.

(** The character an escape sequence stands for. *)
Definition escape_value (c : N) : option N :=
  if (c =? 34)%N then Some 34%N           (* quote *)
  else if (c =? 92)%N then Some 92%N      (* backslash *)
  else if (c =? 47)%N then Some 47%N      (* \/ *)
  else if (c =? 98)%N then Some 8%N       (* \b *)
  else if (c =? 102)%N then Some 12%N     (* \f *)
  else if (c =? 110)%N then Some 10%N     (* \n *)
  else if (c =? 114)%N then Some 13%N     (* \r *)
  else if (c =? 116)%N then Some 9%N      (* \t *)
  else None.

(** One code unit of the text; [None] is a syntax error. *)
Definition step (st : pstate) (c : N) : option pstate :=
  let '(m, stack) := st in
  match m with
  | MValue => if is_ws c then Some st else start_value c stack
  | MArrayStart =>
      if is_ws c then Some st
      else if (c =? 93)%N
      then match stack with
           | FArray _ :: below => complete (VArray []) below
           | _ => None
           end
      else start_value c stack
  | MObjectStart =>
      if is_ws c then Some st
      else if (c =? 125)%N
      then match stack with
           | FObject _ :: below => complete (VObject []) below
           | _ => None
           end
      else if (c =? 34)%N then Some (MString true [], stack)
      else None
  | MKey =>
      if is_ws c then Some st
      else if (c =? 34)%N then Some (MString true [], stack)
      else None
  | MColon key =>
      if is_ws c then Some st
      else if (c =? 58)%N
      then match stack with
           | FObject done :: below => Some (MValue, FMember done key :: below)
           | _ => None
           end
      else None
  | MAfterElement | MDone _ => step_after st c
  | MLiteral rest v =>
      match rest with
      | [] => None
      | r :: rest' =>
          if (c =? r)%N
          then match rest' with
               | [] => complete v stack
               | _ => Some (MLiteral rest' v, stack)
               end
          else None
      end
  | MString k acc =>
      if (c =? 34)%N then complete_string k (rev acc) stack
      else if (c =? 92)%N then Some (MEscape k acc, stack)
      else if (c <? 32)%N then None
      else Some (MString k (c :: acc), stack)
  | MEscape k acc =>
      if (c =? 117)%N then Some (MUnicode k acc 0 0%N, stack)
      else match escape_value c with
           | Some e => Some (MString k (e :: acc), stack)
           | None => None
           end
  | MUnicode k acc read code =>
      match hex_value c with
      | Some h =>
          let code' := (code * 16 + h)%N in
          if (read =? 3)%nat then Some (MString k (code' :: acc), stack)
          else Some (MUnicode k acc (S read) code', stack)
      | None => None
      end
  | MNumber p a =>
      match step_number p a c with
      | Some (p', a') => Some (MNumber p' a', stack)
      | None =>
          if phase_final p
          then match complete (VNumber (numacc_value a)) stack with
               | Some st' => step_after st' c
               | None => None
               end
          else None
      end
  end.

(** The end of the text: the top-level value must be complete. *)
Definition finish (st : pstate) : completion value :=
  match st with
  | (MDone v, []) => Normal v
  | (MNumber p a, []) =>
      if phase_final p then Normal (VNumber (numacc_value a))
      else Throw SyntaxError
  | _ => Throw SyntaxError
  end.

Fixpoint run (text : jsstring) (st : pstate) : completion value :=
  match text with
  | [] => finish st
  | c :: rest =>
      match step st c with
      | Some st' => run rest st'
      | None => Throw SyntaxError
      end
  end.

(** [JSON.parse(text)]: the parsed value, or a thrown SyntaxError. *)
Definition JSON_parse (text : jsstring) : completion value :=
  run text (MValue, []).

(** The automaton holds no [undefined] as a finished or pending value. *)
Definition defined_state (st : pstate) : Prop :=
  match fst st with
  | MDone v | MLiteral _ v => v <> VUndefined
  | _ => True
  end.

(** The code units a value accounts for: one per value, plus the lengths
    of its strings and keys. *)
Fixpoint wvalue (v : value) : nat :=
  match v with
  | VString s => 1 + length s
  | VArray elems =>
      1 + (fix sum (l : list value) : nat :=
             match l with
             | [] => 0
             | x :: l' => wvalue x + sum l'
             end) elems
  | VObject props =>
      1 + (fix sum (l : list (jsstring * value)) : nat :=
             match l with
             | [] => 0
             | (k, x) :: l' => length k + wvalue x + sum l'
             end) props
  | _ => 1
  end.

Definition welems (l : list value) : nat := list_sum (map wvalue l).

Definition wprops (l : list (jsstring * value)) : nat :=
  list_sum (map (fun kv => length (fst kv) + wvalue (snd kv)) l).

Definition wframe (f : frame) : nat :=
  match f with
  | FArray done => 1 + welems done
  | FObject done => 1 + wprops done
  | FMember done key => 1 + wprops done + length key
  end.

Definition wmode (m : mode) : nat :=
  match m with
  | MColon key => length key
  | MDone v => wvalue v
  | MLiteral _ _ | MNumber _ _ => 1
  | MString _ acc | MEscape _ acc | MUnicode _ acc _ _ => 1 + length acc
  | _ => 0
  end.

(** The code units the automaton's state accounts for. *)
Definition weight (st : pstate) : nat :=
  wmode (fst st) + list_sum (map wframe (snd st)).

(** The literals [true], [false] and [null] in the making. *)
Definition literal_state (st : pstate) : Prop :=
  match fst st with
  | MLiteral _ v => wvalue v = 1
  | _ => True
  end.

(** A string literal between quotes, as JSON text. *)
Definition quoted (s : string) : jsstring := 34%N :: str s ++ [34%N].

End JS.

(* ================================================================== *)
(** ** The view: [frontend/src/FindReplaceView.svelte] *)
(* ================================================================== *)

Module View.
Import JS.

(** What the thrown value of a failed engine call offers the handler: its
    [message], a string. *)
Record Error := mkError {
  message : jsstring
}.

(** How the awaited promise of the engine call settles. *)
Inductive Outcome :=
| Resolved (result : value)
| Rejected (err : Error).

(** The arguments of one call of [find_and_replace].  A text input never
    written to is [undefined], here [None]. *)
Record Call := mkCall {
  arg_toFind : option jsstring;
  arg_toReplace : option jsstring;
  arg_nullTerminated : bool;
  arg_allowOverflow : bool
}.

(** The object held by the [selectedResource] store, as far as the view
    uses it: its method [find_and_replace]. *)
Record Resource := mkResource {
  find_and_replace : option jsstring -> option jsstring -> bool -> bool
                     -> Outcome
}.

Section Component.

(** The values of the [modifierView] prop and of the [selected] store are
    passed around, never inspected. *)
Variable ModifierView : Type.
Variable Selection : Type.

(** The component's variables (lines 128-133), the two stores it imports
    (line 126), and two traces: the values written to [$selected] and the
    engine calls made, oldest first. *)
Record State := mkState {
  modifierView : option ModifierView;
  toFind : option jsstring;
  toReplace : option jsstring;
  nullTerminated : bool;
  allowOverflow : bool;
  errorMessage : value;
  selected : option Selection;
  selectedResource : option Resource;
  selected_writes : list (option Selection);
  calls : list Call
}.

(** Lines 128-133: the state of a fresh component. *)
Definition initial (view : option ModifierView) (sel : option Selection)
    (res : option Resource) : State :=
  {| modifierView := view;
     toFind := None;
     toReplace := None;
     nullTerminated := true;
     allowOverflow := false;
     errorMessage := VUndefined;
     selected := sel;
     selectedResource := res;
     selected_writes := [];
     calls := [] |}.

Definition set_modifierView (v : option ModifierView) (st : State) : State :=
  {| modifierView := v;
     toFind := toFind st;
     toReplace := toReplace st;
     nullTerminated := nullTerminated st;
     allowOverflow := allowOverflow st;
     errorMessage := errorMessage st;
     selected := selected st;
     selectedResource := selectedResource st;
     selected_writes := selected_writes st;
     calls := calls st |}.

Definition set_toFind (s : jsstring) (st : State) : State :=
  {| modifierView := modifierView st;
     toFind := Some s;
     toReplace := toReplace st;
     nullTerminated := nullTerminated st;
     allowOverflow := allowOverflow st;
     errorMessage := errorMessage st;
     selected := selected st;
     selectedResource := selectedResource st;
     selected_writes := selected_writes st;
     calls := calls st |}.

Definition set_toReplace (s : jsstring) (st : State) : State :=
  {| modifierView := modifierView st;
     toFind := toFind st;
     toReplace := Some s;
     nullTerminated := nullTerminated st;
     allowOverflow := allowOverflow st;
     errorMessage := errorMessage st;
     selected := selected st;
     selectedResource := selectedResource st;
     selected_writes := selected_writes st;
     calls := calls st |}.

Definition set_nullTerminated (b : bool) (st : State) : State :=
  {| modifierView := modifierView st;
     toFind := toFind st;
     toReplace := toReplace st;
     nullTerminated := b;
     allowOverflow := allowOverflow st;
     errorMessage := errorMessage st;
     selected := selected st;
     selectedResource := selectedResource st;
     selected_writes := selected_writes st;
     calls := calls st |}.

Definition set_allowOverflow (b : bool) (st : State) : State :=
  {| modifierView := modifierView st;
     toFind := toFind st;
     toReplace := toReplace st;
     nullTerminated := nullTerminated st;
     allowOverflow := b;
     errorMessage := errorMessage st;
     selected := selected st;
     selectedResource := selectedResource st;
     selected_writes := selected_writes st;
     calls := calls st |}.

Definition set_errorMessage (v : value) (st : State) : State :=
  {| modifierView := modifierView st;
     toFind := toFind st;
     toReplace := toReplace st;
     nullTerminated := nullTerminated st;
     allowOverflow := allowOverflow st;
     errorMessage := v;
     selected := selected st;
     selectedResource := selectedResource st;
     selected_writes := selected_writes st;
     calls := calls st |}.

(** [$selected = v]: the store takes the value and the write is traced. *)
Definition set_selected (v : option Selection) (st : State) : State :=
  {| modifierView := modifierView st;
     toFind := toFind st;
     toReplace := toReplace st;
     nullTerminated := nullTerminated st;
     allowOverflow := allowOverflow st;
     errorMessage := errorMessage st;
     selected := v;
     selectedResource := selectedResource st;
     selected_writes := selected_writes st ++ [v];
     calls := calls st |}.

(** The stores change from outside the component. *)
Definition set_stores (sel : option Selection) (res : option Resource)
    (st : State) : State :=
  {| modifierView := modifierView st;
     toFind := toFind st;
     toReplace := toReplace st;
     nullTerminated := nullTerminated st;
     allowOverflow := allowOverflow st;
     errorMessage := errorMessage st;
     selected := sel;
     selectedResource := res;
     selected_writes := selected_writes st;
     calls := calls st |}.

Definition trace_call (c : Call) (st : State) : State :=
  {| modifierView := modifierView st;
     toFind := toFind st;
     toReplace := toReplace st;
     nullTerminated := nullTerminated st;
     allowOverflow := allowOverflow st;
     errorMessage := errorMessage st;
     selected := selected st;
     selectedResource := selectedResource st;
     selected_writes := selected_writes st;
     calls := calls st ++ [c] |}.

(** Lines 135-140. *)
Definition refreshResource (st : State) : State :=
  let originalSelected := selected st in
  let st := set_selected None st in
  set_selected originalSelected st.

(** Line 157, the body of the inner [try]:
    [JSON.parse(err.message).message]. *)
Definition parsed_message (err : Error) : completion value :=
  bind (JSON_parse (message err)) get_message.

(** Lines 155-161, the handler of the outer [catch]. *)
Definition on_error (err : Error) (st : State) : State :=
  try_catch
    (bind (parsed_message err) (fun m => Normal (set_errorMessage m st)))
    (fun _ => set_errorMessage (VString (message err)) st).

(** Lines 142-162.  The handler is taken as one step: nothing else runs
    between the call and the code after the [await].  The promise of the
    engine call settles as the resource decides; a rejection, like any
    exception of the outer [try], goes to [on_error]. *)
Definition findAndReplace (st : State) : State :=
  match selectedResource st with
  | Some resource =>
      let st' := trace_call (mkCall (toFind st) (toReplace st)
                               (nullTerminated st) (allowOverflow st)) st in
      match find_and_replace resource (toFind st) (toReplace st)
              (nullTerminated st) (allowOverflow st) with
      | Resolved _ => refreshResource (set_modifierView None st')
      | Rejected err => on_error err st'
      end
  | None => refreshResource (set_modifierView None st)
  end.

(** Lines 189-194: the error paragraph is rendered when [errorMessage] is
    truthy. *)
Definition error_shown (st : State) : bool := ToBoolean (errorMessage st).

(** What can happen to the component: the two text inputs and the two
    checkboxes are edited (lines 173-186), a button is clicked (lines
    197-198), the stores change from outside. *)
Inductive Event :=
| InputToFind (s : jsstring)
| InputToReplace (s : jsstring)
| CheckNullTerminated (b : bool)
| CheckAllowOverflow (b : bool)
| ClickFindAndReplace
| ClickCancel
| StoresChange (sel : option Selection) (res : option Resource).

Definition handle (st : State) (e : Event) : State :=
  match e with
  | InputToFind s => set_toFind s st
  | InputToReplace s => set_toReplace s st
  | CheckNullTerminated b => set_nullTerminated b st
  | CheckAllowOverflow b => set_allowOverflow b st
  | ClickFindAndReplace => findAndReplace st
  | ClickCancel => set_modifierView None st
  | StoresChange sel res => set_stores sel res st
  end.

Definition handle_all (st : State) (events : list Event) : State :=
  fold_left handle events st.

(** The flags an engine call received are the defaults of lines 131-132. *)
Definition default_flags (c : Call) : Prop :=
  arg_nullTerminated c = true /\ arg_allowOverflow c = false.

Definition touches_checkbox (e : Event) : bool :=
  match e with
  | CheckNullTerminated _ | CheckAllowOverflow _ => true
  | _ => false
  end.

End Component.

Arguments mkState {ModifierView Selection}.
Arguments modifierView {ModifierView Selection} s.
Arguments toFind {ModifierView Selection} s.
Arguments toReplace {ModifierView Selection} s.
Arguments nullTerminated {ModifierView Selection} s.
Arguments allowOverflow {ModifierView Selection} s.
Arguments errorMessage {ModifierView Selection} s.
Arguments selected {ModifierView Selection} s.
Arguments selectedResource {ModifierView Selection} s.
Arguments selected_writes {ModifierView Selection} s.
Arguments calls {ModifierView Selection} s.
Arguments initial {ModifierView Selection} view sel res.
Arguments set_modifierView {ModifierView Selection} v st.
Arguments set_toFind {ModifierView Selection} s st.
Arguments set_toReplace {ModifierView Selection} s st.
Arguments set_nullTerminated {ModifierView Selection} b st.
Arguments set_allowOverflow {ModifierView Selection} b st.
Arguments set_errorMessage {ModifierView Selection} v st.
Arguments set_selected {ModifierView Selection} v st.
Arguments set_stores {ModifierView Selection} sel res st.
Arguments trace_call {ModifierView Selection} c st.
Arguments refreshResource {ModifierView Selection} st.
Arguments on_error {ModifierView Selection} err st.
Arguments findAndReplace {ModifierView Selection} st.
Arguments error_shown {ModifierView Selection} st.
Arguments InputToFind {Selection} s.
Arguments InputToReplace {Selection} s.
Arguments CheckNullTerminated {Selection} b.
Arguments CheckAllowOverflow {Selection} b.
Arguments ClickFindAndReplace {Selection}.
Arguments ClickCancel {Selection}.
Arguments StoresChange {Selection} sel res.
Arguments handle {ModifierView Selection} st e.
Arguments handle_all {ModifierView Selection} st events.
Arguments touches_checkbox {Selection} e.

(** The call a click makes from [st] when the flags are at their defaults:
    the two texts of the moment, [true] and [false]. *)
Definition default_call {ModifierView Selection : Type}
    (st : State ModifierView Selection) : Call :=
  mkCall (toFind st) (toReplace st) true false.

(** *** Sample inputs *)

(** A resource whose engine call always settles the same way. *)
Definition settling (o : Outcome) : Resource :=
  mkResource (fun _ _ _ _ => o).

(** A fresh component over a resource whose call settles as [o]. *)
Definition fresh (o : Outcome) : State unit unit :=
  initial (Some tt) (Some tt) (Some (settling o)).

(** A fresh component with nothing selected. *)
Definition fresh_unselected : State unit unit :=
  initial (Some tt) None None.

(** The JSON text of an object with one string member. *)
Definition message_object (key text : string) : jsstring :=
  str "{" ++ quoted key ++ str ":" ++ quoted text ++ str "}".

(** An error whose message is structured, one whose message is an object
    without a [message] member, and one whose message is the JSON text of
    [null]. *)
Definition structured_error : Error :=
  mkError (message_object "message" "boom").
Definition detail_error : Error :=
  mkError (message_object "detail" "boom").
Definition null_error : Error := mkError (str "null").

End View.

(* ================================================================== *)
(** ** The view, with the engine call pending *)
(* ================================================================== *)

(** [findAndReplace] is an [async] function (line 142): it runs up to the
    [await] of line 145 when the button is clicked, and from there on
    (lines 153-161) when the promise of the engine call settles.  In
    between, the component handles whatever else happens.  The code after
    the [await] keeps no local variable of the code before it, so a call in
    flight is one more pending continuation and nothing else. *)

Module Pending.
Import JS View.

Section Component.

Variable ModifierView : Type.
Variable Selection : Type.

Definition is_click (e : Event Selection) : bool :=
  match e with
  | ClickFindAndReplace => true
  | _ => false
  end.

Definition changes_stores (e : Event Selection) : bool :=
  match e with
  | StoresChange _ _ => true
  | _ => false
  end.

(** The number of clicks on the Find and Replace button. *)
Definition clicks (events : list (Event Selection)) : nat :=
  length (filter is_click events).

(** The component and the number of engine calls still in flight. *)
Record Async := mkAsync {
  component : State ModifierView Selection;
  pending : nat
}.

(** Lines 143-151, up to the [await]: with a resource selected the call is
    made, returns its promise and the function suspends; with none, lines
    153-154 run at once. *)
Definition begin (a : Async) : Async :=
  let st := component a in
  match selectedResource st with
  | Some _ =>
      mkAsync (trace_call (mkCall (toFind st) (toReplace st)
                             (nullTerminated st) (allowOverflow st)) st)
              (S (pending a))
  | None => mkAsync (refreshResource (set_modifierView None st)) (pending a)
  end.

(** Lines 153-161, after the [await]: the promise has settled as [o]. *)
Definition resume (o : Outcome) (a : Async) : Async :=
  match pending a with
  | O => a
  | S n =>
      match o with
      | Resolved _ =>
          mkAsync (refreshResource (set_modifierView None (component a))) n
      | Rejected err => mkAsync (on_error err (component a)) n
      end
  end.

(** What happens next: something in the page, or a promise settles. *)
Inductive Step :=
| UI (e : Event Selection)
| Settle (o : Outcome).

Definition async_step (a : Async) (s : Step) : Async :=
  match s with
  | UI ClickFindAndReplace => begin a
  | UI e => mkAsync (handle (component a) e) (pending a)
  | Settle o => resume o a
  end.

Definition async_run (a : Async) (steps : list Step) : Async :=
  fold_left async_step steps a.

End Component.

Arguments is_click {Selection} e.
Arguments changes_stores {Selection} e.
Arguments clicks {Selection} events.
Arguments mkAsync {ModifierView Selection} component pending.
Arguments component {ModifierView Selection} a.
Arguments pending {ModifierView Selection} a.
Arguments begin {ModifierView Selection} a.
Arguments resume {ModifierView Selection} o a.
Arguments UI {Selection} e.
Arguments Settle {Selection} o.
Arguments async_step {ModifierView Selection} a s.
Arguments async_run {ModifierView Selection} a steps.

(** *** Error messages as texts *)

(** A code unit that can stand inside a JSON string as itself: no control
    character, no quote, no backslash. *)
Definition plain_unit (c : N) : bool :=
  negb (c <? 32)%N && negb (c =? 34)%N && negb (c =? 92)%N.

(** The JSON text of an object whose only member is [message], a string of
    plain code units. *)
Definition structured (text : jsstring) : jsstring :=
  str "{" ++ quoted "message" ++ str ":" ++ 34%N :: text ++ 34%N :: str "}".

(** A code unit a JSON text can start with: white space, an opening brace
    or bracket, a quote, a minus sign, a digit, or the first letter of
    [true], [false] or [null]. *)
Definition starts_json (c : N) : bool :=
  is_ws c || (c =? 123)%N || (c =? 91)%N || (c =? 34)%N || (c =? 45)%N
  || is_digit c || (c =? 116)%N || (c =? 102)%N || (c =? 110)%N.

(** *** Sample states *)

(** A component showing the error of a first, failed call. *)
Definition failed_once : State unit unit :=
  findAndReplace (fresh (Rejected structured_error)).

(** A component whose modifier view is closed already. *)
Definition closed_view : State unit unit :=
  initial None (Some tt) (Some (settling (Rejected null_error))).

(** A fresh component with no call in flight. *)
Definition idle (o : Outcome) : Async unit unit := mkAsync (fresh o) 0.

End Pending.

(* ================================================================== *)
(** ** Properties of the engine *)
(* ================================================================== *)

Module EngineFacts.
Import Engine.

(** The scenarios of spec section 8. *)

Example scenario_find_foo :
  findAll (raw "foobarfoo") (mkSearchPattern "f"%byte (raw "oo"))
  = [mkOccurrence 0 3; mkOccurrence 6 3].
Proof. reflexivity. Qed.

Example scenario_replace_foo :
  process_request raw (fun _ => true) (raw "foobarfoo")
    (mkRequest "foo"%string "X"%string false false)
  = (raw "XbarX", Success).
Proof. reflexivity. Qed.

Example scenario_overflow_denied :
  process_request raw (fun _ => true) (raw "foobarfoo")
    (mkRequest "bar"%string "longreplacement"%string false false)
  = (raw "foobarfoo", Failure (Validation Overflow)).
Proof. reflexivity. Qed.

Example scenario_overflow_allowed :
  process_request raw (fun _ => true) (raw "foobarfoo")
    (mkRequest "bar"%string "longreplacement"%string false true)
  = (raw "foolongreplacementfoo", Success).
Proof. reflexivity. Qed.

Example scenario_overlapping_matches :
  findAll (raw "aaaaa") (mkSearchPattern "a"%byte (raw "a"))
  = [mkOccurrence 0 2; mkOccurrence 2 2].
Proof. reflexivity. Qed.

Lemma bytes_eqb_eq (a b : list byte) : bytes_eqb a b = true <-> a = b.
Proof.
  revert b; induction a as [|x a IH]; intros [|y b]; simpl;
    try (split; [discriminate | congruence]); try tauto.
  rewrite andb_true_iff, IH. split.
  - intros [Hxy ->]. apply Byte.byte_dec_bl in Hxy. congruence.
  - intros [= -> ->]. split; [apply Byte.byte_dec_lb|]; reflexivity.
Qed.

Lemma matches_at_slice (buffer : ResourceBuffer) (p : list byte) (pos : nat) :
  matches_at buffer p pos = true <-> slice buffer pos (length p) = p.
Proof. unfold matches_at. apply bytes_eqb_eq. Qed.

(** A match lies inside the buffer. *)
Lemma matches_at_bound (buffer : ResourceBuffer) (p : list byte) (pos : nat) :
  matches_at buffer p pos = true -> p <> [] -> pos + length p <= length buffer.
Proof.
  intros H Hp. apply matches_at_slice in H.
  assert (L : length (slice buffer pos (length p)) = length p) by congruence.
  unfold slice in L. rewrite length_firstn, length_skipn in L.
  assert (0 < length p) by (destruct p; simpl; [congruence|lia]).
  lia.
Qed.

Section Scan.

Variable buffer : ResourceBuffer.
Variable pattern : SearchPattern.

Lemma sp_len_pos : 0 < sp_len pattern.
Proof. unfold sp_len, sp_bytes. simpl. lia. Qed.

Lemma good_occurrence_weaken (pos pos' : nat) (o : Occurrence) :
  pos' <= pos ->
  good_occurrence buffer pattern pos o -> good_occurrence buffer pattern pos' o.
Proof. unfold good_occurrence. intuition lia. Qed.

Lemma scan_good (fuel pos : nat) :
  Forall (good_occurrence buffer pattern pos) (scan fuel buffer pattern pos).
Proof.
  revert pos. induction fuel as [|fuel IH]; intros pos; simpl; [constructor|].
  destruct (Nat.ltb_spec (length buffer) (pos + sp_len pattern)) as [Hlt|Hge];
    [constructor|].
  destruct (matches_at buffer (sp_bytes pattern) pos) eqn:Hm.
  - constructor.
    + unfold good_occurrence; cbn [occ_start occ_len].
      repeat split; try lia.
      apply matches_at_slice in Hm. exact Hm.
    + eapply Forall_impl; [|apply IH].
      intros o. apply good_occurrence_weaken. lia.
  - eapply Forall_impl; [|apply IH].
    intros o. apply good_occurrence_weaken. lia.
Qed.

Lemma scan_sorted (fuel pos : nat) :
  StronglySorted before (scan fuel buffer pattern pos).
Proof.
  revert pos. induction fuel as [|fuel IH]; intros pos; simpl; [constructor|].
  destruct (length buffer <? pos + sp_len pattern); [constructor|].
  destruct (matches_at buffer (sp_bytes pattern) pos); [|apply IH].
  constructor; [apply IH|].
  eapply Forall_impl; [|apply scan_good].
  intros o (_ & Hpos & _). unfold before. cbn [occ_start occ_len]. exact Hpos.
Qed.

(** Once the fuel covers the bytes left of the cursor, more fuel changes
    nothing: the loop has ended by itself. *)
Lemma scan_fuel_irrelevant (fuel fuel' pos : nat) :
  length buffer < pos + fuel -> length buffer < pos + fuel' ->
  scan fuel buffer pattern pos = scan fuel' buffer pattern pos.
Proof.
  revert fuel' pos. induction fuel as [|fuel IH]; intros fuel' pos H H'.
  - destruct fuel' as [|fuel']; [reflexivity|]. simpl.
    destruct (Nat.ltb_spec (length buffer) (pos + sp_len pattern)); [reflexivity|lia].
  - destruct fuel' as [|fuel']; simpl.
    + destruct (Nat.ltb_spec (length buffer) (pos + sp_len pattern)); [reflexivity|lia].
    + pose proof sp_len_pos as Hp.
      destruct (Nat.ltb_spec (length buffer) (pos + sp_len pattern)); [reflexivity|].
      destruct (matches_at buffer (sp_bytes pattern) pos).
      * f_equal. apply IH; lia.
      * apply IH; lia.
Qed.

(** With enough fuel, every match at or after the cursor starts inside a
    recorded occurrence: the scan skips a position only by jumping over it
    on an earlier match. *)
Lemma scan_covers (fuel pos : nat) :
  length buffer < pos + fuel ->
  forall p, pos <= p -> matches_at buffer (sp_bytes pattern) p = true ->
  exists o, In o (scan fuel buffer pattern pos)
            /\ occ_start o <= p < occ_start o + occ_len o.
Proof.
  revert pos. induction fuel as [|fuel IH]; intros pos Hfuel p Hp Hm;
    pose proof (matches_at_bound _ _ _ Hm ltac:(discriminate)) as Hb;
    pose proof sp_len_pos as Hlen; unfold sp_len in Hlen.
  - lia.
  - simpl.
    destruct (Nat.ltb_spec (length buffer) (pos + sp_len pattern)) as [Hlt|Hge].
    + unfold sp_len in Hlt. lia.
    + destruct (matches_at buffer (sp_bytes pattern) pos) eqn:Hpos.
      * destruct (Nat.lt_ge_cases p (pos + sp_len pattern)) as [Hin|Hout].
        -- eexists. split; [left; reflexivity|]. cbn [occ_start occ_len]. lia.
        -- destruct (IH (pos + sp_len pattern)) with (p := p)
             as (o & Ho & Hr); try assumption; [unfold sp_len; lia|].
           exists o. split; [right; exact Ho|exact Hr].
      * assert (p <> pos) by congruence.
        apply (IH (pos + 1)); [lia|lia|exact Hm].
Qed.

End Scan.

(** The scan of [findAll] has ended by itself: no amount of fuel beyond
    the buffer's length changes its result. *)
Lemma findAll_total (buffer : ResourceBuffer) (pattern : SearchPattern)
    (fuel : nat) :
  length buffer < fuel -> scan fuel buffer pattern 0 = findAll buffer pattern.
Proof.
  intros H. unfold findAll. apply scan_fuel_irrelevant; simpl; lia.
Qed.

Lemma findAll_good (buffer : ResourceBuffer) (pattern : SearchPattern) :
  Forall (good_occurrence buffer pattern 0) (findAll buffer pattern).
Proof. apply scan_good. Qed.

(** A buffer contains the pattern exactly when the scanner finds it. *)
Lemma contains_findAll (buffer : ResourceBuffer) (pattern : SearchPattern) :
  contains buffer pattern <-> findAll buffer pattern <> [].
Proof.
  split.
  - intros [p Hm] Hnil.
    destruct (scan_covers buffer pattern (S (length buffer)) 0) with (p := p)
      as (o & Ho & _); [lia|lia|exact Hm|].
    unfold findAll in Hnil. rewrite Hnil in Ho. exact Ho.
  - intros Hne. pose proof (findAll_good buffer pattern) as Hg.
    destruct (findAll buffer pattern) as [|o os]; [congruence|].
    inversion Hg as [|? ? (Hlen & _ & _ & Hs) _]; subst.
    exists (occ_start o). apply matches_at_slice.
    rewrite <- Hs at 2. rewrite Hlen. reflexivity.
Qed.

(** C3.  For every buffer and every (non-empty) search pattern, the
    occurrences returned by [findAll] each have the pattern's length, lie
    inside the buffer and cover bytes equal to the pattern; each occurrence
    ends no later than every later one starts (they do not overlap), so
    their start offsets are strictly ascending; the scan is exhaustive from
    left to right, a position matching the pattern being either recorded or
    inside a region already matched; and the scan ends by itself, whatever
    the fuel beyond the buffer's length. *)
Theorem findAll_ascending_non_overlapping
    (buffer : ResourceBuffer) (pattern : SearchPattern) :
  Forall (good_occurrence buffer pattern 0) (findAll buffer pattern)
  /\ StronglySorted before (findAll buffer pattern)
  /\ StronglySorted starts_before (findAll buffer pattern)
  /\ (forall p, matches_at buffer (sp_bytes pattern) p = true ->
        exists o, In o (findAll buffer pattern)
                  /\ occ_start o <= p < occ_start o + occ_len o)
  /\ (forall fuel, length buffer < fuel ->
        scan fuel buffer pattern 0 = findAll buffer pattern).
Proof.
  pose proof (findAll_good buffer pattern) as Hg.
  pose proof (scan_sorted buffer pattern (S (length buffer)) 0) as Hs.
  fold (findAll buffer pattern) in Hs.
  split; [exact Hg|]. split; [exact Hs|]. split; [|split].
  - pose proof (sp_len_pos pattern) as Hlen.
    induction Hs as [|o os Hos IH Hfa]; constructor.
    + apply IH. inversion Hg; assumption.
    + inversion Hg as [|? ? (Ho & _) _]; subst.
      eapply Forall_impl; [|exact Hfa].
      unfold before, starts_before. intros b Hb. lia.
  - intros p Hm. apply scan_covers; [lia|lia|exact Hm].
  - intros fuel. apply findAll_total.
Qed.

Section PlannerFacts.

Variable text : Type.
Variable encode : text -> list byte.
Variable commit : ResourceBuffer -> bool.

(** Every occurrence has the pattern's length, so the per-occurrence
    length policy is one comparison, made only when something was found. *)
Lemma forallb_occurrence_legal (buffer : ResourceBuffer)
    (pattern : SearchPattern) (replacement : ReplacementPattern)
    (allowOverflow : bool) :
  forallb (occurrence_legal replacement allowOverflow)
          (findAll buffer pattern)
  = match findAll buffer pattern with
    | [] => true
    | _ :: _ =>
        if length replacement <=? sp_len pattern then true else allowOverflow
    end.
Proof.
  pose proof (findAll_good buffer pattern) as Hg.
  assert (Hall : forall l, Forall (good_occurrence buffer pattern 0) l ->
            forallb (occurrence_legal replacement allowOverflow) l
            = match l with
              | [] => true
              | _ :: _ =>
                  if length replacement <=? sp_len pattern
                  then true else allowOverflow
              end).
  { induction l as [|a l IH]; intros Hl; [reflexivity|].
    inversion Hl as [|? ? (Ha & _) Hl']; subst.
    cbn [forallb]. rewrite IH by assumption.
    unfold occurrence_legal at 1. rewrite Ha.
    destruct (length replacement <=? sp_len pattern), allowOverflow, l;
      reflexivity. }
  apply Hall, Hg.
Qed.

(** C1.  When the find text has a search pattern, the buffer contains it
    somewhere, the replacement pattern is longer than the search pattern
    and overflow is not allowed, planning fails with Overflow and the
    request returns the buffer it was given together with that error. *)
Theorem plan_overflow_denied (buffer : ResourceBuffer)
    (findText replaceText : text) (nullTerminate : bool)
    (pattern : SearchPattern) :
  searchPattern encode findText = Some pattern ->
  contains buffer pattern ->
  sp_len pattern < length (replacementPattern encode replaceText nullTerminate) ->
  plan encode buffer findText replaceText nullTerminate false = inl Overflow
  /\ process_request encode commit buffer
       (mkRequest findText replaceText nullTerminate false)
     = (buffer, Failure (Validation Overflow)).
Proof.
  intros Hsp Hc Hlen.
  assert (Hplan : plan encode buffer findText replaceText nullTerminate false
                  = inl Overflow).
  { unfold plan. rewrite Hsp. cbv zeta.
    rewrite forallb_occurrence_legal.
    apply contains_findAll in Hc.
    destruct (findAll buffer pattern); [congruence|].
    destruct (Nat.leb_spec
                (length (replacementPattern encode replaceText nullTerminate))
                (sp_len pattern)); [lia|reflexivity]. }
  split; [exact Hplan|].
  unfold process_request. cbn [Engine.findText Engine.replaceText
    Engine.nullTerminate Engine.allowOverflow].
  rewrite Hplan. reflexivity.
Qed.

(** C2.  When the find text encodes to zero bytes, planning fails with
    EmptyPattern whatever the replacement text and the two flags, and the
    request returns the buffer it was given together with that error. *)
Theorem plan_empty_pattern (buffer : ResourceBuffer)
    (findText replaceText : text) (nullTerminate allowOverflow : bool) :
  encode findText = [] ->
  plan encode buffer findText replaceText nullTerminate allowOverflow
  = inl EmptyPattern
  /\ process_request encode commit buffer
       (mkRequest findText replaceText nullTerminate allowOverflow)
     = (buffer, Failure (Validation EmptyPattern)).
Proof.
  intros He.
  assert (Hplan : plan encode buffer findText replaceText nullTerminate
                    allowOverflow = inl EmptyPattern).
  { unfold plan, searchPattern. rewrite He. reflexivity. }
  split; [exact Hplan|].
  unfold process_request. cbn [Engine.findText Engine.replaceText
    Engine.nullTerminate Engine.allowOverflow].
  rewrite Hplan. reflexivity.
Qed.

(** C4.  The replacement pattern is the encoded replace text followed by
    exactly one zero byte when null termination is on, and the encoded
    replace text itself when it is off; the planner uses that very
    sequence, both in the plan it returns and in the length comparison
    that decides Overflow. *)
Theorem plan_uses_replacement_pattern (buffer : ResourceBuffer)
    (findText replaceText : text) (nullTerminate allowOverflow : bool) :
  let extended :=
    encode replaceText ++ (if nullTerminate then [x00] else []) in
  replacementPattern encode replaceText nullTerminate = extended
  /\ length extended
     = length (encode replaceText) + (if nullTerminate then 1 else 0)
  /\ plan encode buffer findText replaceText nullTerminate allowOverflow
     = match searchPattern encode findText with
       | None => inl EmptyPattern
       | Some pattern =>
           match findAll buffer pattern with
           | [] => inr (mkPlan [] extended Allowed)
           | o :: os =>
               if (length extended <=? sp_len pattern) || allowOverflow
               then inr (mkPlan (o :: os) extended Allowed)
               else inl Overflow
           end
       end.
Proof.
  intros extended.
  assert (Hr : replacementPattern encode replaceText nullTerminate = extended).
  { unfold replacementPattern, extended.
    destruct nullTerminate; [reflexivity|]. rewrite app_nil_r. reflexivity. }
  split; [exact Hr|]. split.
  - unfold extended. rewrite length_app. destruct nullTerminate; reflexivity.
  - unfold plan. rewrite Hr.
    destruct (searchPattern encode findText) as [pattern|]; [|reflexivity].
    cbv zeta. rewrite forallb_occurrence_legal.
    destruct (findAll buffer pattern) as [|o os]; [reflexivity|].
    destruct (length extended <=? sp_len pattern), allowOverflow; reflexivity.
Qed.

End PlannerFacts.

(** Witness of C1: "bar" in "foobarfoo", to be replaced by a longer text. *)
Lemma plan_overflow_denied_witness :
  plan raw (raw "foobarfoo") "bar"%string "longreplacement"%string false false
  = inl Overflow
  /\ process_request raw (fun _ => true) (raw "foobarfoo")
       (mkRequest "bar"%string "longreplacement"%string false false)
     = (raw "foobarfoo", Failure (Validation Overflow)).
Proof.
  apply (plan_overflow_denied string raw (fun _ => true) (raw "foobarfoo")
           "bar"%string "longreplacement"%string false
           (mkSearchPattern "b"%byte (raw "ar"))).
  - reflexivity.
  - exists 3. reflexivity.
  - vm_compute. lia.
Defined.

(** Witness of C2: the empty find text. *)
Lemma plan_empty_pattern_witness :
  plan raw (raw "foobarfoo") EmptyString "X"%string true true
  = inl EmptyPattern
  /\ process_request raw (fun _ => true) (raw "foobarfoo")
       (mkRequest EmptyString "X"%string true true)
     = (raw "foobarfoo", Failure (Validation EmptyPattern)).
Proof.
  apply (plan_empty_pattern string raw (fun _ => true) (raw "foobarfoo")
           EmptyString "X"%string true true).
  reflexivity.
Defined.

(** *** Replacing does not bring the pattern back *)

Section Reintroduction.

Variable p : list byte.
Variable replacement : ReplacementPattern.
Hypothesis p_replacement_disjoint : disjoint p replacement.

Lemma disjoint_head (x r : byte) (p' r' : list byte) :
  disjoint (x :: p') (r :: r') -> x <> r.
Proof.
  intros H ->. apply (H r); left; reflexivity.
Qed.

Lemma disjoint_tail_r (a : list byte) (r : byte) (r' : list byte) :
  disjoint a (r :: r') -> disjoint a r'.
Proof.
  intros H x Hx Hr. apply (H x Hx). right. exact Hr.
Qed.

Lemma disjoint_tail_l (x : byte) (a b : list byte) :
  disjoint (x :: a) b -> disjoint a b.
Proof.
  intros H y Hy. apply H. right. exact Hy.
Qed.

(** A part of [r ++ y] sharing no byte with [r] lies in [y]. *)
Lemma occurs_in_after (q r y : list byte) :
  q <> [] -> disjoint q r -> occurs_in q (r ++ y) -> occurs_in q y.
Proof.
  intros Hq. induction r as [|b r IH]; intros Hd (pre & post & E);
    [exists pre, post; exact E|].
  destruct pre as [|a pre].
  - destruct q as [|x q]; [congruence|].
    simpl in E. injection E as E1 E2.
    exfalso. symmetry in E1. revert E1. eapply disjoint_head. exact Hd.
  - simpl in E. injection E as _ E.
    apply IH; [eapply disjoint_tail_r; exact Hd|].
    exists pre, post. exact E.
Qed.

(** A prefix of [x ++ r ++ y] sharing no byte with a non-empty [r] is a
    prefix of [x]. *)
Lemma prefix_before (q x r y post : list byte) :
  r <> [] -> disjoint q r -> q ++ post = x ++ r ++ y ->
  exists post', x = q ++ post'.
Proof.
  intros Hr. revert x. induction q as [|c q IH]; intros x Hd E.
  - exists x. reflexivity.
  - destruct x as [|a x].
    + destruct r as [|b r]; [congruence|].
      simpl in E. injection E as E1 _.
      exfalso. revert E1. eapply disjoint_head. exact Hd.
    + simpl in E. injection E as -> E.
      destruct (IH x) as [post' ->];
        [eapply disjoint_tail_l; exact Hd|exact E|].
      exists post'. reflexivity.
Qed.

(** A part of [x ++ replacement ++ y] lies in [x] or in [y] when it shares
    no byte with the non-empty replacement between them. *)
Lemma occurs_in_split (x y : list byte) :
  p <> [] -> replacement <> [] ->
  occurs_in p (x ++ replacement ++ y) -> occurs_in p x \/ occurs_in p y.
Proof.
  intros Hp Hr. induction x as [|a x IH]; intros (pre & post & E).
  - right. apply occurs_in_after with (r := replacement);
      [exact Hp|exact p_replacement_disjoint|].
    exists pre, post. exact E.
  - destruct pre as [|b pre].
    + left. simpl in E. symmetry in E.
      destruct (prefix_before p (a :: x) replacement y post Hr
                  p_replacement_disjoint E) as [post' ->].
      exists [], post'. reflexivity.
    + simpl in E. injection E as <- E.
      destruct IH as [(pre' & post' & ->)|Hy];
        [exists pre, post; exact E| |right; exact Hy].
      left. exists (a :: pre'), post'. reflexivity.
Qed.

End Reintroduction.

(** Bytes found from the cursor on are a match in the buffer. *)
Lemma skipn_match (buffer : ResourceBuffer) (cursor : nat)
    (pre q rest : list byte) :
  skipn cursor buffer = pre ++ q ++ rest ->
  matches_at buffer q (cursor + length pre) = true.
Proof.
  intros E. apply matches_at_slice. unfold slice.
  rewrite Nat.add_comm, <- skipn_skipn, E.
  rewrite skipn_app, skipn_all, Nat.sub_diag. simpl.
  rewrite firstn_app, firstn_all, Nat.sub_diag. simpl.
  apply app_nil_r.
Qed.

Section Assemble.

Variable buffer : ResourceBuffer.
Variable pattern : SearchPattern.
Variable replacement : ReplacementPattern.
Hypothesis replacement_nonempty : replacement <> [].
Hypothesis pattern_replacement_disjoint :
  disjoint (sp_bytes pattern) replacement.

(** The buffer assembled from [cursor] on, with the occurrences scanned
    from [pos] on, does not contain the pattern, provided the original
    buffer has no match between the two. *)
Lemma assemble_scan_clean (fuel pos cursor : nat) :
  length buffer < pos + fuel ->
  cursor <= pos ->
  (forall q, cursor <= q < pos ->
             matches_at buffer (sp_bytes pattern) q = false) ->
  ~ occurs_in (sp_bytes pattern)
      (assemble buffer cursor (scan fuel buffer pattern pos) replacement).
Proof.
  pose proof (sp_len_pos pattern) as Hlen. unfold sp_len in Hlen.
  assert (Hend : forall cursor pos,
            length buffer < pos + sp_len pattern ->
            (forall q, cursor <= q < pos ->
               matches_at buffer (sp_bytes pattern) q = false) ->
            ~ occurs_in (sp_bytes pattern) (skipn cursor buffer)).
  { clear cursor pos. intros cursor pos Hlt Hgap (pre & post & E).
    pose proof (skipn_match buffer cursor pre (sp_bytes pattern) post E) as Hm.
    pose proof (matches_at_bound _ _ _ Hm ltac:(discriminate)) as Hb.
    rewrite Hgap in Hm; [discriminate|]. unfold sp_len in Hlt. lia. }
  revert pos cursor. induction fuel as [|fuel IH];
    intros pos cursor Hfuel Hle Hgap; simpl.
  - apply (Hend cursor pos); [lia|exact Hgap].
  - destruct (Nat.ltb_spec (length buffer) (pos + sp_len pattern)) as [Hlt|Hge].
    + simpl. apply (Hend cursor pos); assumption.
    + destruct (matches_at buffer (sp_bytes pattern) pos) eqn:Hpos.
      * cbn [assemble occ_start occ_len]. intros Hocc.
        apply occurs_in_split in Hocc;
          [|exact pattern_replacement_disjoint|discriminate
           |exact replacement_nonempty].
        destruct Hocc as [(pre & post & E)|Hrest].
        -- unfold slice in E.
           pose proof (firstn_skipn (pos - cursor) (skipn cursor buffer)) as Hs.
           rewrite E in Hs. rewrite <- !app_assoc in Hs. symmetry in Hs.
           pose proof (skipn_match buffer cursor pre (sp_bytes pattern) _ Hs)
             as Hm.
           assert (Hl : length (pre ++ sp_bytes pattern ++ post)
                        <= pos - cursor).
           { rewrite <- E. rewrite length_firstn. lia. }
           rewrite !length_app in Hl.
           rewrite Hgap in Hm; [discriminate|]. lia.
        -- revert Hrest. apply IH; [unfold sp_len; lia|lia|].
           intros q Hq. lia.
      * apply IH; [lia|lia|].
        intros q Hq. destruct (Nat.eq_dec q pos) as [->|Hne]; [exact Hpos|].
        apply Hgap. lia.
Qed.

(** The assembled buffer holds no occurrence of the pattern. *)
Lemma assemble_findAll_clean :
  findAll (assemble buffer 0 (findAll buffer pattern) replacement) pattern
  = [].
Proof.
  set (out := assemble buffer 0 (findAll buffer pattern) replacement).
  destruct (findAll out pattern) as [|o os] eqn:Hf; [reflexivity|].
  exfalso.
  pose proof (findAll_good out pattern) as Hg. rewrite Hf in Hg.
  inversion Hg as [|? ? (Hlen & _ & _ & Hs) _]; subst.
  apply (assemble_scan_clean (S (length buffer)) 0 0); [lia|lia|intros; lia|].
  fold (findAll buffer pattern). fold out.
  exists (firstn (occ_start o) out),
         (skipn (occ_len o) (skipn (occ_start o) out)).
  rewrite <- Hs. unfold slice.
  rewrite firstn_skipn, firstn_skipn. reflexivity.
Qed.

End Assemble.

(** C5, as amended.  When the search pattern and the replacement pattern
    have no byte in common and the replacement pattern is not empty,
    applying the plan of a request and searching the resulting buffer for
    the same search pattern finds nothing. *)
Theorem replace_does_not_reintroduce (text : Type) (encode : text -> list byte)
    (buffer buffer' : ResourceBuffer) (findText replaceText : text)
    (nullTerminate allowOverflow : bool)
    (pattern : SearchPattern) (p : ReplacementPlan) :
  searchPattern encode findText = Some pattern ->
  plan encode buffer findText replaceText nullTerminate allowOverflow = inr p ->
  disjoint (sp_bytes pattern) (plan_replacement p) ->
  plan_replacement p <> [] ->
  apply buffer p = inr buffer' ->
  findAll buffer' pattern = [].
Proof.
  intros Hsp Hplan Hd Hne Happly.
  unfold plan in Hplan. rewrite Hsp in Hplan. cbv zeta in Hplan.
  destruct (forallb _ _); [|discriminate].
  injection Hplan as <-.
  unfold apply in Happly. cbn [plan_legal plan_occurrences plan_replacement]
    in Happly, Hd, Hne.
  injection Happly as <-.
  apply assemble_findAll_clean; assumption.
Qed.

(** Witness of C5 as amended: "foo" replaced by "X" in "foobarfoo". *)
Lemma replace_does_not_reintroduce_witness :
  findAll (raw "XbarX") (mkSearchPattern "f"%byte (raw "oo")) = [].
Proof.
  apply (replace_does_not_reintroduce string raw
           (raw "foobarfoo") (raw "XbarX") "foo"%string "X"%string
           false false (mkSearchPattern "f"%byte (raw "oo"))
           (mkPlan [mkOccurrence 0 3; mkOccurrence 6 3] (raw "X") Allowed)).
  - reflexivity.
  - reflexivity.
  - intros x Hx Hr. simpl in Hx, Hr.
    destruct Hr as [<-|[]].
    destruct Hx as [Hx|[Hx|[Hx|[]]]]; discriminate Hx.
  - discriminate.
  - reflexivity.
Defined.

(** C5, as stated, fails for an empty replacement: deleting "ab" from
    "aabb" leaves "ab".  The plan is legal, the two patterns have no byte
    in common, and the pattern is found again in the result. *)
Lemma empty_replacement_reintroduces :
  searchPattern raw "ab"%string = Some (mkSearchPattern "a"%byte (raw "b"))
  /\ plan raw (raw "aabb") "ab"%string EmptyString false false
     = inr (mkPlan [mkOccurrence 1 2] [] Allowed)
  /\ disjoint (sp_bytes (mkSearchPattern "a"%byte (raw "b"))) []
  /\ apply (raw "aabb") (mkPlan [mkOccurrence 1 2] [] Allowed)
     = inr (raw "ab")
  /\ findAll (raw "ab") (mkSearchPattern "a"%byte (raw "b"))
     = [mkOccurrence 0 2]
  /\ findAll (raw "ab") (mkSearchPattern "a"%byte (raw "b")) <> [].
Proof.
  repeat split; try reflexivity.
  - intros x _ [].
  - discriminate.
Qed.

End EngineFacts.

(* ================================================================== *)
(** ** Properties of [JSON.parse] *)
(* ================================================================== *)

Module JSFacts.
Import JS.

Example parse_null : JSON_parse (str "null") = Normal VNull.
Proof. reflexivity. Qed.

Example parse_object :
  JSON_parse (str "{ " ++ quoted "message" ++ str " : " ++ quoted "boom"
              ++ str ", " ++ quoted "code" ++ str ": [4.0e2, true] }")
  = Normal (VObject [(str "message", VString (str "boom"));
                     (str "code", VArray [VNumber (mkNumber false 40 1);
                                          VBool true])]).
Proof. reflexivity. Qed.

Example parse_plain_text :
  JSON_parse (str "Internal Server Error") = Throw SyntaxError.
Proof. reflexivity. Qed.

Example parse_trailing_comma : JSON_parse (str "[1,]") = Throw SyntaxError.
Proof. reflexivity. Qed.

Example parse_leading_zero : JSON_parse (str "01") = Throw SyntaxError.
Proof. reflexivity. Qed.

Example parse_escapes :
  JSON_parse (quoted "a\u0041\n\\")
  = Normal (VString [97; 65; 10; 92]%N).
Proof. reflexivity. Qed.

Lemma complete_defined (v : value) (stack : list frame) (st' : pstate) :
  v <> VUndefined -> complete v stack = Some st' -> defined_state st'.
Proof.
  intros Hv. unfold complete.
  destruct stack as [|[done|done|done key] below]; intros [= <-];
    unfold defined_state; simpl; auto.
Qed.

Lemma step_after_defined (st st' : pstate) (c : N) :
  defined_state st -> step_after st c = Some st' -> defined_state st'.
Proof.
  destruct st as [m stack]. unfold step_after.
  destruct m; try discriminate.
  - destruct (is_ws c); [intros _ [= <-]; exact I|].
    destruct stack as [|[done|done|done key] below]; try discriminate.
    + destruct (c =? 44)%N; [intros _ [= <-]; exact I|].
      destruct (c =? 93)%N; [|discriminate].
      intros _. apply complete_defined. discriminate.
    + destruct (c =? 44)%N; [intros _ [= <-]; exact I|].
      destruct (c =? 125)%N; [|discriminate].
      intros _. apply complete_defined. discriminate.
  - destruct (is_ws c); [|discriminate]. intros H [= <-]. exact H.
Qed.

Lemma start_value_defined (c : N) (stack : list frame) (st' : pstate) :
  start_value c stack = Some st' -> defined_state st'.
Proof.
  unfold start_value.
  repeat match goal with
         | |- context [if ?b then _ else _] => destruct b
         end; intros [= <-]; unfold defined_state; simpl;
    solve [exact I | discriminate].
Qed.

Lemma step_defined (st st' : pstate) (c : N) :
  defined_state st -> step st c = Some st' -> defined_state st'.
Proof.
  destruct st as [m stack]. intros Hd. unfold step.
  destruct m.
  - destruct (is_ws c); [intros [= <-]; exact I|]. apply start_value_defined.
  - destruct (is_ws c); [intros [= <-]; exact I|].
    destruct (c =? 93)%N; [|apply start_value_defined].
    destruct stack as [|[done|done|done key] below]; try discriminate.
    apply complete_defined. discriminate.
  - destruct (is_ws c); [intros [= <-]; exact I|].
    destruct (c =? 125)%N.
    + destruct stack as [|[done|done|done key] below]; try discriminate.
      apply complete_defined. discriminate.
    + destruct (c =? 34)%N; [intros [= <-]; exact I|discriminate].
  - destruct (is_ws c); [intros [= <-]; exact I|].
    destruct (c =? 34)%N; [intros [= <-]; exact I|discriminate].
  - destruct (is_ws c); [intros [= <-]; exact I|].
    destruct (c =? 58)%N; [|discriminate].
    destruct stack as [|[done|done|done k] below]; try discriminate.
    intros [= <-]; exact I.
  - apply step_after_defined. exact Hd.
  - apply step_after_defined. exact Hd.
  - destruct rest as [|r rest']; [discriminate|].
    destruct (c =? r)%N; [|discriminate].
    destruct rest'; [apply complete_defined; exact Hd|].
    intros [= <-]. exact Hd.
  - destruct (c =? 34)%N.
    + unfold complete_string. destruct is_key; [intros [= <-]; exact I|].
      apply complete_defined. discriminate.
    + destruct (c =? 92)%N; [intros [= <-]; exact I|].
      destruct (c <? 32)%N; [discriminate|intros [= <-]; exact I].
  - destruct (c =? 117)%N; [intros [= <-]; exact I|].
    destruct (escape_value c); [intros [= <-]; exact I|discriminate].
  - destruct (hex_value c); [|discriminate].
    destruct (read =? 3)%nat; intros [= <-]; exact I.
  - destruct (step_number phase acc c) as [[p' a']|]; [intros [= <-]; exact I|].
    destruct (phase_final phase); [|discriminate].
    destruct (complete (VNumber (numacc_value acc)) stack) as [st1|] eqn:Hc;
      [|discriminate].
    apply step_after_defined.
    eapply complete_defined; [|exact Hc]. discriminate.
Qed.

Lemma run_defined (text : jsstring) (st : pstate) :
  defined_state st -> run text st <> Normal VUndefined.
Proof.
  revert st. induction text as [|c text IH]; intros st Hd; simpl.
  - destruct st as [m stack]. unfold finish.
    destruct m; try discriminate.
    + destruct stack; [|discriminate]. intros [= ->]. apply Hd; reflexivity.
    + destruct stack; [|discriminate].
      destruct (phase_final phase); discriminate.
  - destruct (step st c) as [st'|] eqn:Hs; [|discriminate].
    apply IH. eapply step_defined; eassumption.
Qed.

(** [JSON.parse] never returns [undefined]. *)
Lemma JSON_parse_defined (text : jsstring) :
  JSON_parse text <> Normal VUndefined.
Proof. apply run_defined. exact I. Qed.

(** *** A parsed value is no larger than its text *)

Lemma wvalue_array (elems : list value) :
  wvalue (VArray elems) = 1 + welems elems.
Proof.
  unfold welems. simpl. f_equal.
  induction elems as [|x l IH]; simpl; [reflexivity|]. rewrite IH. reflexivity.
Qed.

Lemma wvalue_object (props : list (jsstring * value)) :
  wvalue (VObject props) = 1 + wprops props.
Proof.
  unfold wprops. simpl. f_equal.
  induction props as [|[k x] l IH]; simpl; [reflexivity|].
  rewrite IH. reflexivity.
Qed.

Lemma list_sum_rev (l : list nat) : list_sum (rev l) = list_sum l.
Proof.
  induction l as [|n l IH]; simpl; [reflexivity|].
  rewrite list_sum_app, IH. simpl. lia.
Qed.

Lemma welems_rev (l : list value) : welems (rev l) = welems l.
Proof. unfold welems. rewrite map_rev. apply list_sum_rev. Qed.

Lemma wprops_rev (l : list (jsstring * value)) : wprops (rev l) = wprops l.
Proof. unfold wprops. rewrite map_rev. apply list_sum_rev. Qed.

Lemma weight_unfold (m : mode) (stack : list frame) :
  weight (m, stack) = wmode m + list_sum (map wframe stack).
Proof. reflexivity. Qed.

(** Completing a value moves its weight from the mode into the stack. *)
Lemma complete_weight (v : value) (stack : list frame) (st' : pstate) :
  complete v stack = Some st' ->
  weight st' = wvalue v + list_sum (map wframe stack)
  /\ literal_state st'.
Proof.
  unfold complete.
  destruct stack as [|[done|done|done key] below]; intros [= <-];
    rewrite weight_unfold; (split; [|exact I]);
    simpl; unfold welems, wprops; simpl; lia.
Qed.

Ltac weigh := rewrite ?weight_unfold; simpl; lia.

Lemma step_after_weight (st st' : pstate) (c : N) :
  step_after st c = Some st' ->
  weight st' <= weight st /\ literal_state st'.
Proof.
  destruct st as [m stack]. unfold step_after.
  destruct m; try discriminate.
  - destruct (is_ws c); [intros [= <-]; split; [weigh|exact I]|].
    destruct stack as [|[done|done|done key] below]; try discriminate.
    + destruct (c =? 44)%N; [intros [= <-]; split; [weigh|exact I]|].
      destruct (c =? 93)%N; [|discriminate]. intros H.
      apply complete_weight in H. destruct H as [-> Hl]. split; [|exact Hl].
      rewrite wvalue_array, welems_rev, weight_unfold. simpl. lia.
    + destruct (c =? 44)%N; [intros [= <-]; split; [weigh|exact I]|].
      destruct (c =? 125)%N; [|discriminate]. intros H.
      apply complete_weight in H. destruct H as [-> Hl]. split; [|exact Hl].
      rewrite wvalue_object, wprops_rev, weight_unfold. simpl. lia.
  - destruct (is_ws c); [|discriminate].
    intros [= <-]. split; [weigh|exact I].
Qed.

Lemma start_value_weight (c : N) (stack : list frame) (st' : pstate) :
  start_value c stack = Some st' ->
  weight st' <= S (list_sum (map wframe stack)) /\ literal_state st'.
Proof.
  unfold start_value.
  repeat match goal with
         | |- context [if ?b then _ else _] => destruct b
         end; intros [= <-]; rewrite weight_unfold; unfold literal_state;
    simpl; split; solve [lia | reflexivity | exact I].
Qed.

(** One code unit adds at most one to the weight. *)
Lemma step_weight (st st' : pstate) (c : N) :
  literal_state st -> step st c = Some st' ->
  weight st' <= S (weight st) /\ literal_state st'.
Proof.
  destruct st as [m stack]. intros Hl. unfold step.
  rewrite (weight_unfold m stack).
  destruct m; cbn [wmode].
  - destruct (is_ws c); [intros [= <-]; split; [weigh|exact I]|].
    apply start_value_weight.
  - destruct (is_ws c); [intros [= <-]; split; [weigh|exact I]|].
    destruct (c =? 93)%N; [|apply start_value_weight].
    destruct stack as [|[done|done|done key] below]; try discriminate.
    intros H. apply complete_weight in H. destruct H as [-> Hl'].
    split; [simpl; lia|exact Hl'].
  - destruct (is_ws c); [intros [= <-]; split; [weigh|exact I]|].
    destruct (c =? 125)%N.
    + destruct stack as [|[done|done|done key] below]; try discriminate.
      intros H. apply complete_weight in H. destruct H as [-> Hl'].
      split; [simpl; lia|exact Hl'].
    + destruct (c =? 34)%N; [|discriminate].
      intros [= <-]. split; [weigh|exact I].
  - destruct (is_ws c); [intros [= <-]; split; [weigh|exact I]|].
    destruct (c =? 34)%N; [|discriminate].
    intros [= <-]. split; [weigh|exact I].
  - destruct (is_ws c); [intros [= <-]; split; [weigh|exact I]|].
    destruct (c =? 58)%N; [|discriminate].
    destruct stack as [|[done|done|done k] below]; try discriminate.
    intros [= <-]. split; [weigh|exact I].
  - intros H. apply step_after_weight in H. rewrite weight_unfold in H.
    simpl in H. simpl. split; [lia|tauto].
  - intros H. apply step_after_weight in H. rewrite weight_unfold in H.
    cbn [wmode] in H. split; [lia|tauto].
  - destruct rest as [|r rest']; [discriminate|].
    destruct (c =? r)%N; [|discriminate].
    destruct rest'.
    + intros H. apply complete_weight in H. destruct H as [-> Hl'].
      unfold literal_state in Hl. simpl in Hl. rewrite Hl.
      split; [lia|exact Hl'].
    + intros [= <-]. split; [weigh|exact Hl].
  - destruct (c =? 34)%N.
    + unfold complete_string. destruct is_key.
      * intros [= <-]. split; [|exact I].
        rewrite weight_unfold. cbn [wmode]. rewrite length_rev. lia.
      * intros H. apply complete_weight in H. destruct H as [-> Hl'].
        split; [|exact Hl']. cbn [wvalue]. rewrite length_rev. lia.
    + destruct (c =? 92)%N; [intros [= <-]; split; [weigh|exact I]|].
      destruct (c <? 32)%N; [discriminate|].
      intros [= <-]. split; [weigh|exact I].
  - destruct (c =? 117)%N; [intros [= <-]; split; [weigh|exact I]|].
    destruct (escape_value c); [|discriminate].
    intros [= <-]. split; [weigh|exact I].
  - destruct (hex_value c); [|discriminate].
    destruct (read =? 3)%nat; intros [= <-]; (split; [weigh|exact I]).
  - destruct (step_number phase acc c) as [[p' a']|];
      [intros [= <-]; split; [weigh|exact I]|].
    destruct (phase_final phase); [|discriminate].
    destruct (complete (VNumber (numacc_value acc)) stack) as [st1|] eqn:Hc;
      [|discriminate].
    intros H. apply step_after_weight in H.
    apply complete_weight in Hc. destruct Hc as [Hw _].
    rewrite Hw in H. cbn [wvalue] in H. split; [lia|tauto].
Qed.

Lemma run_weight (text : jsstring) (st : pstate) (v : value) :
  literal_state st -> run text st = Normal v ->
  wvalue v <= weight st + length text.
Proof.
  revert st. induction text as [|c text IH]; intros st Hl; simpl.
  - destruct st as [m stack]. unfold finish.
    destruct m; try discriminate.
    + destruct stack; [|discriminate]. intros [= ->].
      rewrite weight_unfold. simpl. lia.
    + destruct stack; [|discriminate].
      destruct (phase_final phase); [|discriminate]. intros [= <-].
      rewrite weight_unfold. simpl. lia.
  - destruct (step st c) as [st'|] eqn:Hs; [|discriminate].
    intros Hr. apply step_weight in Hs; [|exact Hl]. destruct Hs as [Hw Hl'].
    apply IH in Hr; [|exact Hl']. lia.
Qed.

(** A parsed value accounts for no more code units than its text has. *)
Lemma JSON_parse_weight (text : jsstring) (v : value) :
  JSON_parse text = Normal v -> wvalue v <= length text.
Proof.
  intros H. apply run_weight in H; [|exact I].
  rewrite weight_unfold in H. simpl in H. exact H.
Qed.

Lemma own_property_weight (props : list (jsstring * value)) (key : jsstring)
    (m : value) :
  own_property props key = Some m -> wvalue m <= wprops props.
Proof.
  unfold wprops. induction props as [|[k x] l IH]; [discriminate|].
  simpl. destruct (own_property l key) as [m'|].
  - intros [= ->]. specialize (IH eq_refl). lia.
  - destruct (jsstring_eqb k key); [|discriminate]. intros [= ->]. lia.
Qed.

(** The [message] property of a parsed value is never the text itself:
    what the handler displays in the [try] differs from its fallback. *)
Lemma parsed_message_not_raw (text : jsstring) (v : value) :
  JSON_parse text = Normal v -> get_message v <> Normal (VString text).
Proof.
  intros Hv Hm. apply JSON_parse_weight in Hv.
  destruct v; try discriminate Hm. simpl in Hm.
  destruct (own_property props (str "message")) as [m|] eqn:Ho;
    [|discriminate Hm].
  injection Hm as ->. apply own_property_weight in Ho.
  rewrite wvalue_object in Hv. cbn [wvalue] in Ho. lia.
Qed.

End JSFacts.

(* ================================================================== *)
(** ** Properties of the view *)
(* ================================================================== *)

Module ViewFacts.
Import JS View.

Section Handler.

Variable ModifierView : Type.
Variable Selection : Type.

(** What closing the modifier view and refreshing the resource view leave
    behind. *)
Lemma close_and_refresh (st : State ModifierView Selection) :
  modifierView (refreshResource (set_modifierView None st)) = None
  /\ selected_writes (refreshResource (set_modifierView None st))
     = selected_writes st ++ [None; selected st]
  /\ selected (refreshResource (set_modifierView None st)) = selected st
  /\ errorMessage (refreshResource (set_modifierView None st))
     = errorMessage st
  /\ calls (refreshResource (set_modifierView None st)) = calls st.
Proof.
  simpl. repeat split. rewrite <- app_assoc. reflexivity.
Qed.

(** The handler traces at most one call, with the flags of the state, and
    leaves the flags alone. *)
Lemma findAndReplace_flags (st : State ModifierView Selection) :
  nullTerminated (findAndReplace st) = nullTerminated st
  /\ allowOverflow (findAndReplace st) = allowOverflow st
  /\ (calls (findAndReplace st) = calls st
      \/ calls (findAndReplace st)
         = calls st ++ [mkCall (toFind st) (toReplace st)
                          (nullTerminated st) (allowOverflow st)]).
Proof.
  unfold findAndReplace.
  destruct (selectedResource st) as [r|]; [|simpl; auto].
  destruct (find_and_replace r (toFind st) (toReplace st)
              (nullTerminated st) (allowOverflow st)) as [v|err];
    [simpl; auto|].
  unfold on_error, try_catch, bind.
  destruct (parsed_message err); simpl; auto.
Qed.

(** An event that touches no checkbox keeps the flags at their defaults,
    and so the flags of every call traced. *)
Lemma handle_keeps_defaults (st : State ModifierView Selection) (e : Event Selection) :
  touches_checkbox e = false ->
  nullTerminated st = true -> allowOverflow st = false ->
  Forall default_flags (calls st) ->
  nullTerminated (handle st e) = true
  /\ allowOverflow (handle st e) = false
  /\ Forall default_flags (calls (handle st e)).
Proof.
  intros He Hn Ha Hc.
  destruct e; try discriminate He; cbn [handle]; try (simpl; auto; fail).
  destruct (findAndReplace_flags st) as (En & Ea & Ec).
  rewrite En, Ea. split; [exact Hn|]. split; [exact Ha|].
  destruct Ec as [->| ->]; [exact Hc|].
  apply Forall_app. split; [exact Hc|].
  constructor; [split; assumption|constructor].
Qed.

(** Over events that touch no checkbox the flags stay at their defaults,
    in the component and in every call traced. *)
Lemma handle_all_keeps_defaults (st : State ModifierView Selection)
    (events : list (Event Selection)) :
  forallb (fun e => negb (touches_checkbox e)) events = true ->
  nullTerminated st = true -> allowOverflow st = false ->
  Forall default_flags (calls st) ->
  nullTerminated (handle_all st events) = true
  /\ allowOverflow (handle_all st events) = false
  /\ Forall default_flags (calls (handle_all st events)).
Proof.
  revert st. induction events as [|e events IH]; intros st He Hn Ha Hc;
    [repeat split; assumption|].
  simpl in He. apply andb_true_iff in He. destruct He as [He Hevs].
  apply negb_true_iff in He.
  destruct (handle_keeps_defaults st e He Hn Ha Hc) as (Hn' & Ha' & Hc').
  unfold handle_all. cbn [fold_left]. apply IH; assumption.
Qed.

(** C6.  A fresh component has [nullTerminated = true] and
    [allowOverflow = false].  As long as no event touches either checkbox
    the two flags keep these values and every engine call made so far has
    received them; and a click on Find and Replace with a resource
    selected then does make a call, of the resource's [find_and_replace]
    with the two texts of the moment, [true] and [false]: the call is
    traced and its outcome decides what the handler does next. *)
Theorem defaults_reach_engine (view : option ModifierView)
    (sel : option Selection) (res : option Resource)
    (events : list (Event Selection)) :
  forallb (fun e => negb (touches_checkbox e)) events = true ->
  nullTerminated (initial view sel res) = true
  /\ allowOverflow (initial view sel res) = false
  /\ Forall default_flags (calls (handle_all (initial view sel res) events))
  /\ nullTerminated (handle_all (initial view sel res) events) = true
  /\ allowOverflow (handle_all (initial view sel res) events) = false
  /\ (forall resource,
        selectedResource (handle_all (initial view sel res) events)
        = Some resource ->
        calls (handle_all (initial view sel res)
                 (events ++ [ClickFindAndReplace]))
        = calls (handle_all (initial view sel res) events)
          ++ [default_call (handle_all (initial view sel res) events)]
        /\ handle_all (initial view sel res)
             (events ++ [ClickFindAndReplace])
           = match find_and_replace resource
                     (toFind (handle_all (initial view sel res) events))
                     (toReplace (handle_all (initial view sel res) events))
                     true false
             with
             | Resolved _ =>
                 refreshResource
                   (set_modifierView None
                      (trace_call
                         (default_call
                            (handle_all (initial view sel res) events))
                         (handle_all (initial view sel res) events)))
             | Rejected err =>
                 on_error err
                   (trace_call
                      (default_call
                         (handle_all (initial view sel res) events))
                      (handle_all (initial view sel res) events))
             end).
Proof.
  intros Hev. split; [reflexivity|]. split; [reflexivity|].
  destruct (handle_all_keeps_defaults (initial view sel res) events Hev
              eq_refl eq_refl (Forall_nil _)) as (Hn & Ha & Hc).
  split; [exact Hc|]. split; [exact Hn|]. split; [exact Ha|].
  intros resource Hres.
  assert (Hclick : handle_all (initial view sel res)
                     (events ++ [ClickFindAndReplace])
                   = findAndReplace (handle_all (initial view sel res) events)).
  { unfold handle_all. rewrite fold_left_app. reflexivity. }
  rewrite Hclick. unfold findAndReplace, default_call.
  rewrite Hres, Hn, Ha. split; [|reflexivity].
  destruct (find_and_replace resource
              (toFind (handle_all (initial view sel res) events))
              (toReplace (handle_all (initial view sel res) events))
              true false) as [v|err].
  - simpl. reflexivity.
  - destruct (parsed_message err) eqn:Hp;
      unfold on_error, try_catch, bind; rewrite Hp; reflexivity.
Qed.

(** C8.  When the engine call resolves, whatever it resolves to, the
    handler closes the modifier view, writes [undefined] and then the
    original value to [$selected], and leaves [errorMessage] as it was. *)
Theorem success_closes_and_refreshes (st : State ModifierView Selection) (resource : Resource)
    (result : value) :
  selectedResource st = Some resource ->
  find_and_replace resource (toFind st) (toReplace st)
    (nullTerminated st) (allowOverflow st) = Resolved result ->
  modifierView (findAndReplace st) = None
  /\ selected_writes (findAndReplace st)
     = selected_writes st ++ [None; selected st]
  /\ selected (findAndReplace st) = selected st
  /\ errorMessage (findAndReplace st) = errorMessage st
  /\ calls (findAndReplace st)
     = calls st ++ [mkCall (toFind st) (toReplace st)
                      (nullTerminated st) (allowOverflow st)].
Proof.
  intros Hres Hcall. unfold findAndReplace. rewrite Hres, Hcall.
  destruct (close_and_refresh
              (trace_call (mkCall (toFind st) (toReplace st)
                             (nullTerminated st) (allowOverflow st)) st))
    as (Hview & Hwrites & Hsel & Herr & Hcalls).
  rewrite Hview, Hwrites, Hsel, Herr, Hcalls. repeat split.
Qed.

(** C9.  With no resource selected the handler makes no engine call, and
    still closes the modifier view, writes [undefined] and then the
    original value to [$selected], and leaves [errorMessage] as it was. *)
Theorem no_resource_no_call (st : State ModifierView Selection) :
  selectedResource st = None ->
  calls (findAndReplace st) = calls st
  /\ modifierView (findAndReplace st) = None
  /\ selected_writes (findAndReplace st)
     = selected_writes st ++ [None; selected st]
  /\ selected (findAndReplace st) = selected st
  /\ errorMessage (findAndReplace st) = errorMessage st.
Proof.
  intros Hres. unfold findAndReplace. rewrite Hres.
  destruct (close_and_refresh st) as (Hview & Hwrites & Hsel & Herr & Hcalls).
  rewrite Hview, Hwrites, Hsel, Herr, Hcalls. repeat split.
Qed.

(** What the handler does with a rejected call: only [errorMessage]
    changes, besides the trace of the call. *)
Lemma rejected_sets_errorMessage (st : State ModifierView Selection) (resource : Resource)
    (err : Error) :
  selectedResource st = Some resource ->
  find_and_replace resource (toFind st) (toReplace st)
    (nullTerminated st) (allowOverflow st) = Rejected err ->
  errorMessage (findAndReplace st)
  = match parsed_message err with
    | Normal m => m
    | Throw _ => VString (message err)
    end.
Proof.
  intros Hres Hcall. unfold findAndReplace. rewrite Hres, Hcall.
  unfold on_error, try_catch, bind.
  destruct (parsed_message err); reflexivity.
Qed.

(** The inner [try] throws exactly when the text is not JSON or is the
    JSON text of [null]. *)
Lemma parsed_message_throws (err : Error) :
  (exists e, parsed_message err = Throw e)
  <-> ((exists e, JSON_parse (message err) = Throw e)
       \/ JSON_parse (message err) = Normal VNull).
Proof.
  unfold parsed_message, bind.
  pose proof (JSFacts.JSON_parse_defined (message err)) as Hdef.
  destruct (JSON_parse (message err)) as [v|e].
  - destruct v; simpl; try congruence;
      try (split; [intros [e He]; discriminate He
                  |intros [[e He]|He]; discriminate He]).
    + split; [right; reflexivity|exists TypeError; reflexivity].
    + destruct (own_property props (str "message"));
        (split; [intros [e He]; discriminate He
                |intros [[e He]|He]; discriminate He]).
  - split; [left; exists e; reflexivity|exists e; reflexivity].
Qed.

(** C7, as amended.  When the engine call is rejected, the handler parses
    the error's message as JSON and sets [errorMessage] to the parsed
    value's [message] property; it falls back to the raw message text if
    and only if the text is not JSON or the parsed value is [null]. *)
Theorem error_parse_then_fallback (st : State ModifierView Selection)
    (resource : Resource) (err : Error) :
  selectedResource st = Some resource ->
  find_and_replace resource (toFind st) (toReplace st)
    (nullTerminated st) (allowOverflow st) = Rejected err ->
  (forall v, JSON_parse (message err) = Normal v -> v <> VNull ->
     get_message v = Normal (errorMessage (findAndReplace st)))
  /\ (errorMessage (findAndReplace st) = VString (message err)
      <-> ((exists e, JSON_parse (message err) = Throw e)
           \/ JSON_parse (message err) = Normal VNull))
  /\ ((exists e, parsed_message err = Throw e)
      <-> ((exists e, JSON_parse (message err) = Throw e)
           \/ JSON_parse (message err) = Normal VNull)).
Proof.
  intros Hres Hcall.
  rewrite (rejected_sets_errorMessage st resource err Hres Hcall).
  assert (Hparsed : forall v, JSON_parse (message err) = Normal v ->
            v <> VNull -> parsed_message err = get_message v
                          /\ exists m, get_message v = Normal m).
  { intros v Hv Hnull.
    pose proof (JSFacts.JSON_parse_defined (message err)) as Hdef.
    unfold parsed_message, bind. rewrite Hv. split; [reflexivity|].
    destruct v; simpl; try congruence; try (eexists; reflexivity).
    destruct (own_property props (str "message")); eexists; reflexivity. }
  split; [|split].
  - intros v Hv Hnull.
    destruct (Hparsed v Hv Hnull) as [-> [m ->]]. reflexivity.
  - split.
    + intros Hraw.
      destruct (JSON_parse (message err)) as [v|e] eqn:Hv;
        [|left; exists e; reflexivity].
      destruct v; try (right; reflexivity); exfalso;
        (apply (JSFacts.parsed_message_not_raw (message err) _ Hv);
         match type of Hv with
         | _ = Normal ?w =>
             destruct (Hparsed w eq_refl ltac:(discriminate)) as [Hp [m Hm]]
         end;
         rewrite Hp, Hm in Hraw; rewrite Hm; f_equal; exact Hraw).
    + intros H. apply parsed_message_throws in H. destruct H as [e ->].
      reflexivity.
  - apply parsed_message_throws.
Qed.

(** C10, as amended.  When the engine call is rejected with a message
    that is JSON for anything but [null], [errorMessage] becomes the
    parsed value's [message] property and not the raw text: the last
    member of that name when the value is an object having one, and
    [undefined] otherwise, in which case no error paragraph is rendered. *)
Theorem error_message_property (st : State ModifierView Selection)
    (resource : Resource) (err : Error) (v : value) :
  selectedResource st = Some resource ->
  find_and_replace resource (toFind st) (toReplace st)
    (nullTerminated st) (allowOverflow st) = Rejected err ->
  JSON_parse (message err) = Normal v ->
  v <> VNull ->
  get_message v = Normal (errorMessage (findAndReplace st))
  /\ errorMessage (findAndReplace st) <> VString (message err)
  /\ (forall props m, v = VObject props ->
        own_property props (str "message") = Some m ->
        errorMessage (findAndReplace st) = m)
  /\ ((forall props, v = VObject props ->
         own_property props (str "message") = None) ->
      errorMessage (findAndReplace st) = VUndefined
      /\ error_shown (findAndReplace st) = false).
Proof.
  intros Hres Hcall Hv Hnull.
  pose proof (JSFacts.JSON_parse_defined (message err)) as Hdef.
  pose proof (JSFacts.parsed_message_not_raw (message err) v Hv) as Hraw.
  unfold error_shown.
  rewrite (rejected_sets_errorMessage st resource err Hres Hcall).
  unfold parsed_message, bind. rewrite Hv.
  destruct v; simpl; try congruence;
    try (split; [reflexivity|]; split; [discriminate|]; split;
         [intros ? ? [=] | intros _; split; reflexivity]).
  simpl in Hraw.
  destruct (own_property props (str "message")) as [m|] eqn:Hm.
  - split; [reflexivity|]. split; [congruence|]. split.
    + intros props' m' [= <-] Hm'. congruence.
    + intros Habs. specialize (Habs props eq_refl). congruence.
  - split; [reflexivity|]. split; [discriminate|]. split.
    + intros props' m' [= <-] Hm'. congruence.
    + intros _. split; reflexivity.
Qed.

End Handler.

(** Witness of C6: both texts are typed and no checkbox is touched; the
    click that follows calls the engine with the defaults. *)
Lemma defaults_reach_engine_witness :
  nullTerminated (fresh (Resolved VUndefined)) = true
  /\ allowOverflow (fresh (Resolved VUndefined)) = false
  /\ Forall default_flags
       (calls (handle_all (fresh (Resolved VUndefined))
                 [InputToFind (str "foo"); InputToReplace (str "bar")]))
  /\ nullTerminated
       (handle_all (fresh (Resolved VUndefined))
          [InputToFind (str "foo"); InputToReplace (str "bar")]) = true
  /\ allowOverflow
       (handle_all (fresh (Resolved VUndefined))
          [InputToFind (str "foo"); InputToReplace (str "bar")]) = false
  /\ (forall resource,
        selectedResource
          (handle_all (fresh (Resolved VUndefined))
             [InputToFind (str "foo"); InputToReplace (str "bar")])
        = Some resource ->
        calls (handle_all (fresh (Resolved VUndefined))
                 ([InputToFind (str "foo"); InputToReplace (str "bar")]
                  ++ [ClickFindAndReplace]))
        = calls (handle_all (fresh (Resolved VUndefined))
                   [InputToFind (str "foo"); InputToReplace (str "bar")])
          ++ [default_call
                (handle_all (fresh (Resolved VUndefined))
                   [InputToFind (str "foo"); InputToReplace (str "bar")])]
        /\ handle_all (fresh (Resolved VUndefined))
             ([InputToFind (str "foo"); InputToReplace (str "bar")]
              ++ [ClickFindAndReplace])
           = match find_and_replace resource
                     (toFind
                        (handle_all (fresh (Resolved VUndefined))
                           [InputToFind (str "foo");
                            InputToReplace (str "bar")]))
                     (toReplace
                        (handle_all (fresh (Resolved VUndefined))
                           [InputToFind (str "foo");
                            InputToReplace (str "bar")]))
                     true false
             with
             | Resolved _ =>
                 refreshResource
                   (set_modifierView None
                      (trace_call
                         (default_call
                            (handle_all (fresh (Resolved VUndefined))
                               [InputToFind (str "foo");
                                InputToReplace (str "bar")]))
                         (handle_all (fresh (Resolved VUndefined))
                            [InputToFind (str "foo");
                             InputToReplace (str "bar")])))
             | Rejected err =>
                 on_error err
                   (trace_call
                      (default_call
                         (handle_all (fresh (Resolved VUndefined))
                            [InputToFind (str "foo");
                             InputToReplace (str "bar")]))
                      (handle_all (fresh (Resolved VUndefined))
                         [InputToFind (str "foo");
                          InputToReplace (str "bar")]))
             end).
Proof.
  apply (defaults_reach_engine unit unit (Some tt) (Some tt)
           (Some (settling (Resolved VUndefined)))
           [InputToFind (str "foo"); InputToReplace (str "bar")]).
  reflexivity.
Defined.

Example defaults_call_made :
  calls (handle_all (fresh (Resolved VUndefined))
           [InputToFind (str "foo"); InputToReplace (str "bar");
            ClickFindAndReplace])
  = [mkCall (Some (str "foo")) (Some (str "bar")) true false].
Proof. reflexivity. Qed.

(** Witness of C8: a call that resolves. *)
Lemma success_closes_and_refreshes_witness :
  modifierView (findAndReplace (fresh (Resolved VUndefined))) = None
  /\ selected_writes (findAndReplace (fresh (Resolved VUndefined)))
     = [] ++ [None; Some tt]
  /\ selected (findAndReplace (fresh (Resolved VUndefined))) = Some tt
  /\ errorMessage (findAndReplace (fresh (Resolved VUndefined)))
     = VUndefined
  /\ calls (findAndReplace (fresh (Resolved VUndefined)))
     = [] ++ [mkCall None None true false].
Proof.
  apply (success_closes_and_refreshes unit unit (fresh (Resolved VUndefined))
           (settling (Resolved VUndefined)) VUndefined); reflexivity.
Defined.

(** Witness of C9: a fresh component with nothing selected. *)
Lemma no_resource_no_call_witness :
  calls (findAndReplace fresh_unselected) = []
  /\ modifierView (findAndReplace fresh_unselected) = None
  /\ selected_writes (findAndReplace fresh_unselected) = [] ++ [None; None]
  /\ selected (findAndReplace fresh_unselected) = None
  /\ errorMessage (findAndReplace fresh_unselected) = VUndefined.
Proof.
  apply (no_resource_no_call unit unit fresh_unselected).
  reflexivity.
Defined.

(** Witness of C7 as amended: a structured error. *)
Lemma error_parse_then_fallback_witness :
  (forall v, JSON_parse (message structured_error) = Normal v -> v <> VNull ->
     get_message v
     = Normal (errorMessage
                 (findAndReplace (fresh (Rejected structured_error)))))
  /\ (errorMessage (findAndReplace (fresh (Rejected structured_error)))
      = VString (message structured_error)
      <-> ((exists e, JSON_parse (message structured_error) = Throw e)
           \/ JSON_parse (message structured_error) = Normal VNull))
  /\ ((exists e, parsed_message structured_error = Throw e)
      <-> ((exists e, JSON_parse (message structured_error) = Throw e)
           \/ JSON_parse (message structured_error) = Normal VNull)).
Proof.
  apply (error_parse_then_fallback unit unit
           (fresh (Rejected structured_error))
           (settling (Rejected structured_error)) structured_error);
    reflexivity.
Defined.

Example structured_error_displayed :
  errorMessage (findAndReplace (fresh (Rejected structured_error)))
  = VString (str "boom").
Proof. reflexivity. Qed.

Example plain_error_displayed :
  errorMessage
    (findAndReplace (fresh (Rejected (mkError (str "Internal Server Error")))))
  = VString (str "Internal Server Error").
Proof. reflexivity. Qed.

(** C7, as stated, fails on the message [null]: parsing succeeds, yet the
    property access on the parsed [null] throws and the raw text is
    displayed; the fallback is taken without any parsing failure. *)
Lemma null_message_falls_back :
  JSON_parse (message null_error) = Normal VNull
  /\ parsed_message null_error = Throw TypeError
  /\ errorMessage (findAndReplace (fresh (Rejected null_error)))
     = VString (message null_error)
  /\ ~ (errorMessage (findAndReplace (fresh (Rejected null_error)))
        = VString (message null_error)
        <-> (exists e, JSON_parse (message null_error) = Throw e)).
Proof.
  repeat split; try reflexivity.
  intros [H _]. destruct H as [e He]; [reflexivity|].
  discriminate He.
Qed.

(** Witness of C10 as amended: an object without a [message] member. *)
Lemma error_message_property_witness :
  get_message (VObject [(str "detail", VString (str "boom"))])
  = Normal (errorMessage (findAndReplace (fresh (Rejected detail_error))))
  /\ errorMessage (findAndReplace (fresh (Rejected detail_error)))
     <> VString (message detail_error)
  /\ (forall props m,
        VObject [(str "detail", VString (str "boom"))] = VObject props ->
        own_property props (str "message") = Some m ->
        errorMessage (findAndReplace (fresh (Rejected detail_error))) = m)
  /\ ((forall props,
         VObject [(str "detail", VString (str "boom"))] = VObject props ->
         own_property props (str "message") = None) ->
      errorMessage (findAndReplace (fresh (Rejected detail_error)))
      = VUndefined
      /\ error_shown (findAndReplace (fresh (Rejected detail_error)))
         = false).
Proof.
  apply (error_message_property unit unit
           (fresh (Rejected detail_error))
           (settling (Rejected detail_error)) detail_error
           (VObject [(str "detail", VString (str "boom"))]));
    try reflexivity.
  discriminate.
Defined.

Example detail_error_not_shown :
  errorMessage (findAndReplace (fresh (Rejected detail_error))) = VUndefined
  /\ error_shown (findAndReplace (fresh (Rejected detail_error))) = false.
Proof. split; reflexivity. Qed.

(** C10, as stated, fails on the message [null]: it is valid JSON, yet
    [errorMessage] is the raw text, not [undefined], and the error
    paragraph is rendered. *)
Lemma null_message_is_rendered :
  JSON_parse (message null_error) = Normal VNull
  /\ errorMessage (findAndReplace (fresh (Rejected null_error)))
     = VString (str "null")
  /\ errorMessage (findAndReplace (fresh (Rejected null_error)))
     <> VUndefined
  /\ error_shown (findAndReplace (fresh (Rejected null_error))) = true.
Proof.
  repeat split; try reflexivity. discriminate.
Qed.

End ViewFacts.

(* ================================================================== *)
(** ** More on the view: what the handlers leave alone *)
(* ================================================================== *)

Module ViewFrame.
Import JS View Pending.

Section Frame.

Variable ModifierView : Type.
Variable Selection : Type.

(** The [catch] of lines 155-161 writes [errorMessage] and nothing else. *)
Lemma on_error_fields (err : Error) (st : State ModifierView Selection) :
  modifierView (on_error err st) = modifierView st
  /\ toFind (on_error err st) = toFind st
  /\ toReplace (on_error err st) = toReplace st
  /\ nullTerminated (on_error err st) = nullTerminated st
  /\ allowOverflow (on_error err st) = allowOverflow st
  /\ selected (on_error err st) = selected st
  /\ selectedResource (on_error err st) = selectedResource st
  /\ selected_writes (on_error err st) = selected_writes st
  /\ calls (on_error err st) = calls st.
Proof.
  unfold on_error, try_catch, bind.
  destruct (parsed_message err); simpl; repeat split.
Qed.

(** Everything one run of the handler can do to the component. *)
Lemma findAndReplace_effects (st : State ModifierView Selection) :
  toFind (findAndReplace st) = toFind st
  /\ toReplace (findAndReplace st) = toReplace st
  /\ nullTerminated (findAndReplace st) = nullTerminated st
  /\ allowOverflow (findAndReplace st) = allowOverflow st
  /\ selected (findAndReplace st) = selected st
  /\ selectedResource (findAndReplace st) = selectedResource st
  /\ (modifierView (findAndReplace st) = modifierView st
      \/ modifierView (findAndReplace st) = None)
  /\ (calls (findAndReplace st) = calls st
      \/ calls (findAndReplace st)
         = calls st ++ [mkCall (toFind st) (toReplace st)
                          (nullTerminated st) (allowOverflow st)])
  /\ (selected_writes (findAndReplace st) = selected_writes st
      \/ selected_writes (findAndReplace st)
         = selected_writes st ++ [None; selected st]).
Proof.
  unfold findAndReplace.
  destruct (selectedResource st) as [r|] eqn:Hres.
  - destruct (find_and_replace r (toFind st) (toReplace st)
                (nullTerminated st) (allowOverflow st)) as [v|err].
    + simpl. rewrite <- app_assoc. simpl. repeat split; auto.
    + destruct (on_error_fields err
                  (trace_call (mkCall (toFind st) (toReplace st)
                                 (nullTerminated st) (allowOverflow st)) st))
        as (-> & -> & -> & -> & -> & -> & -> & -> & ->).
      simpl. repeat split; auto.
  - simpl. rewrite <- app_assoc. simpl. repeat split; auto.
Qed.

(** X1.  When the engine call is rejected, the modifier view stays open
    and nothing is written to [$selected]: the call is traced and
    [errorMessage] is the only variable of the component that may change. *)
Theorem failure_keeps_view_open (st : State ModifierView Selection)
    (resource : Resource) (err : Error) :
  selectedResource st = Some resource ->
  find_and_replace resource (toFind st) (toReplace st)
    (nullTerminated st) (allowOverflow st) = Rejected err ->
  modifierView (findAndReplace st) = modifierView st
  /\ selected_writes (findAndReplace st) = selected_writes st
  /\ selected (findAndReplace st) = selected st
  /\ toFind (findAndReplace st) = toFind st
  /\ toReplace (findAndReplace st) = toReplace st
  /\ nullTerminated (findAndReplace st) = nullTerminated st
  /\ allowOverflow (findAndReplace st) = allowOverflow st
  /\ calls (findAndReplace st)
     = calls st ++ [mkCall (toFind st) (toReplace st)
                      (nullTerminated st) (allowOverflow st)].
Proof.
  intros Hres Hcall. unfold findAndReplace. rewrite Hres, Hcall.
  destruct (on_error_fields err
              (trace_call (mkCall (toFind st) (toReplace st)
                             (nullTerminated st) (allowOverflow st)) st))
    as (-> & -> & -> & -> & -> & -> & _ & -> & ->).
  repeat split.
Qed.

(** X2.  Whatever the outcome (no resource, a resolved call, a rejected
    call with any message), the handler never changes the two texts, the
    two flags, [$selected] or [$selectedResource]. *)
Theorem handler_leaves_form_and_stores (st : State ModifierView Selection) :
  toFind (findAndReplace st) = toFind st
  /\ toReplace (findAndReplace st) = toReplace st
  /\ nullTerminated (findAndReplace st) = nullTerminated st
  /\ allowOverflow (findAndReplace st) = allowOverflow st
  /\ selected (findAndReplace st) = selected st
  /\ selectedResource (findAndReplace st) = selectedResource st.
Proof.
  destruct (findAndReplace_effects st)
    as (H1 & H2 & H3 & H4 & H5 & H6 & _).
  repeat split; assumption.
Qed.

(** An event other than the click on Find and Replace makes no engine
    call, writes nothing to [$selected] and leaves [errorMessage]. *)
Lemma handle_quiet (st : State ModifierView Selection) (e : Event Selection) :
  is_click e = false ->
  calls (handle st e) = calls st
  /\ selected_writes (handle st e) = selected_writes st
  /\ errorMessage (handle st e) = errorMessage st.
Proof.
  destruct e; try discriminate; intros _; simpl; repeat split.
Qed.

(** Events other than the click, in sequence. *)
Lemma handle_all_quiet (st : State ModifierView Selection)
    (events : list (Event Selection)) :
  clicks events = 0 ->
  calls (handle_all st events) = calls st
  /\ selected_writes (handle_all st events) = selected_writes st
  /\ errorMessage (handle_all st events) = errorMessage st.
Proof.
  revert st. induction events as [|e events IH]; intros st Hc.
  - repeat split.
  - unfold clicks in Hc. simpl in Hc.
    destruct (is_click e) eqn:He; [discriminate Hc|].
    destruct (handle_quiet st e He) as (Hcalls & Hwrites & Herr).
    unfold handle_all. cbn [fold_left].
    destruct (IH (handle st e) Hc) as (IH1 & IH2 & IH3).
    unfold handle_all in IH1, IH2, IH3.
    rewrite IH1, IH2, IH3, Hcalls, Hwrites, Herr. repeat split.
Qed.

(** X3.  Over any sequence of events without a click on Find and Replace
    (typing, ticking, Cancel, store changes), no engine call is made,
    nothing is written to [$selected] and [errorMessage] stays as it was:
    an error on display is not cleared by editing the form. *)
Theorem only_clicks_have_effects (st : State ModifierView Selection)
    (events : list (Event Selection)) :
  clicks events = 0 ->
  calls (handle_all st events) = calls st
  /\ selected_writes (handle_all st events) = selected_writes st
  /\ errorMessage (handle_all st events) = errorMessage st
  /\ error_shown (handle_all st events) = error_shown st.
Proof.
  intros Hc. destruct (handle_all_quiet st events Hc) as (H1 & H2 & H3).
  unfold error_shown. rewrite H1, H2, H3. repeat split.
Qed.

Lemma handle_keeps_closed (st : State ModifierView Selection)
    (e : Event Selection) :
  modifierView st = None -> modifierView (handle st e) = None.
Proof.
  intros Hv. destruct e; simpl; try assumption; try reflexivity.
  destruct (findAndReplace_effects st)
    as (_ & _ & _ & _ & _ & _ & [-> | ->] & _); [assumption|reflexivity].
Qed.

(** X4.  Nothing the component does opens a modifier view: once
    [modifierView] is [undefined], it stays so over every sequence of
    events, failing engine calls included. *)
Theorem closed_view_stays_closed (st : State ModifierView Selection)
    (events : list (Event Selection)) :
  modifierView st = None ->
  modifierView (handle_all st events) = None.
Proof.
  revert st. induction events as [|e events IH]; intros st Hv; [exact Hv|].
  unfold handle_all. cbn [fold_left]. apply IH.
  apply handle_keeps_closed. exact Hv.
Qed.

Lemma handle_calls (st : State ModifierView Selection) (e : Event Selection) :
  exists made, calls (handle st e) = calls st ++ made
               /\ length made <= (if is_click e then 1 else 0).
Proof.
  destruct e;
    try (exists []; simpl; rewrite app_nil_r; split; [reflexivity|lia]).
  cbn [handle is_click].
  destruct (findAndReplace_effects st)
    as (_ & _ & _ & _ & _ & _ & _ & [-> | ->] & _).
  - exists []. rewrite app_nil_r. split; [reflexivity|simpl; lia].
  - eexists. split; [reflexivity|simpl; lia].
Qed.

(** X5.  Over any sequence of events the trace of engine calls only
    grows, and by at most one call per click on Find and Replace. *)
Theorem calls_grow_with_clicks (st : State ModifierView Selection)
    (events : list (Event Selection)) :
  exists made,
    calls (handle_all st events) = calls st ++ made
    /\ length made <= clicks events.
Proof.
  revert st. induction events as [|e events IH]; intros st.
  - exists []. simpl. rewrite app_nil_r. split; [reflexivity|lia].
  - unfold handle_all. cbn [fold_left].
    destruct (handle_calls st e) as (m1 & E1 & L1).
    destruct (IH (handle st e)) as (m2 & E2 & L2).
    unfold handle_all in E2. exists (m1 ++ m2).
    rewrite E2, E1, app_assoc. split; [reflexivity|].
    rewrite length_app. unfold clicks in *. simpl.
    destruct (is_click e); simpl; lia.
Qed.

Lemma handle_selection (st : State ModifierView Selection)
    (e : Event Selection) :
  changes_stores e = false ->
  selected (handle st e) = selected st
  /\ selectedResource (handle st e) = selectedResource st
  /\ exists k, k <= (if is_click e then 1 else 0)
               /\ selected_writes (handle st e)
                  = selected_writes st
                    ++ concat (repeat [None; selected st] k).
Proof.
  destruct e; try discriminate; intros _;
    try (simpl; split; [reflexivity|]; split; [reflexivity|];
         exists 0; simpl; rewrite app_nil_r; split; [lia|reflexivity]).
  cbn [handle is_click].
  destruct (findAndReplace_effects st)
    as (_ & _ & _ & _ & -> & -> & _ & _ & Hw).
  split; [reflexivity|]. split; [reflexivity|].
  destruct Hw as [-> | ->].
  - exists 0. simpl. rewrite app_nil_r. split; [lia|reflexivity].
  - exists 1. simpl. split; [lia|reflexivity].
Qed.

(** X6.  As long as the stores are not changed from outside, the component
    leaves [$selected] and [$selectedResource] as it found them: all it
    ever writes to [$selected] is [undefined] followed by the value that
    was there, at most once per click on Find and Replace. *)
Theorem selection_restored (st : State ModifierView Selection)
    (events : list (Event Selection)) :
  forallb (fun e => negb (changes_stores e)) events = true ->
  selected (handle_all st events) = selected st
  /\ selectedResource (handle_all st events) = selectedResource st
  /\ exists k, k <= clicks events
               /\ selected_writes (handle_all st events)
                  = selected_writes st
                    ++ concat (repeat [None; selected st] k).
Proof.
  revert st. induction events as [|e events IH]; intros st Hev.
  - split; [reflexivity|]. split; [reflexivity|].
    exists 0. simpl. rewrite app_nil_r. split; [lia|reflexivity].
  - simpl in Hev. apply andb_true_iff in Hev. destruct Hev as [He Hev].
    apply negb_true_iff in He.
    destruct (handle_selection st e He) as (Hs & Hr & k1 & L1 & W1).
    destruct (IH (handle st e) Hev) as (IHs & IHr & k2 & L2 & W2).
    unfold handle_all in *. cbn [fold_left].
    rewrite IHs, IHr, W2, W1, Hs, Hr. split; [reflexivity|].
    split; [reflexivity|].
    exists (k1 + k2). split.
    + unfold clicks in *. simpl. destruct (is_click e); simpl; lia.
    + rewrite repeat_app, concat_app, app_assoc. reflexivity.
Qed.

End Frame.

(** Witness of X1: a call rejected with a structured error. *)
Lemma failure_keeps_view_open_witness :
  modifierView failed_once = Some tt
  /\ selected_writes failed_once = []
  /\ selected failed_once = Some tt
  /\ toFind failed_once = None
  /\ toReplace failed_once = None
  /\ nullTerminated failed_once = true
  /\ allowOverflow failed_once = false
  /\ calls failed_once = [] ++ [mkCall None None true false].
Proof.
  apply (failure_keeps_view_open unit unit
           (fresh (Rejected structured_error))
           (settling (Rejected structured_error)) structured_error);
    reflexivity.
Defined.

(** Witness of X3: the form is edited and cancelled after a failure. *)
Lemma only_clicks_have_effects_witness :
  calls (handle_all failed_once
           [InputToFind (str "foo"); CheckAllowOverflow true; ClickCancel])
  = calls failed_once
  /\ selected_writes
       (handle_all failed_once
          [InputToFind (str "foo"); CheckAllowOverflow true; ClickCancel])
     = selected_writes failed_once
  /\ errorMessage
       (handle_all failed_once
          [InputToFind (str "foo"); CheckAllowOverflow true; ClickCancel])
     = errorMessage failed_once
  /\ error_shown
       (handle_all failed_once
          [InputToFind (str "foo"); CheckAllowOverflow true; ClickCancel])
     = error_shown failed_once.
Proof.
  apply (only_clicks_have_effects unit unit failed_once
           [InputToFind (str "foo"); CheckAllowOverflow true; ClickCancel]).
  reflexivity.
Defined.

(** Witness of X4: a failing call made with the view closed. *)
Lemma closed_view_stays_closed_witness :
  modifierView
    (handle_all closed_view [ClickFindAndReplace; InputToFind (str "foo")])
  = None.
Proof.
  apply (closed_view_stays_closed unit unit closed_view
           [ClickFindAndReplace; InputToFind (str "foo")]).
  reflexivity.
Defined.

(** Witness of X6: two successful replacements in a row. *)
Lemma selection_restored_witness :
  selected
    (handle_all (fresh (Resolved VUndefined))
       [ClickFindAndReplace; InputToFind (str "foo"); ClickFindAndReplace])
  = selected (fresh (Resolved VUndefined))
  /\ selectedResource
       (handle_all (fresh (Resolved VUndefined))
          [ClickFindAndReplace; InputToFind (str "foo"); ClickFindAndReplace])
     = selectedResource (fresh (Resolved VUndefined))
  /\ exists k,
       k <= clicks [@ClickFindAndReplace unit; InputToFind (str "foo");
                    ClickFindAndReplace]
       /\ selected_writes
            (handle_all (fresh (Resolved VUndefined))
               [ClickFindAndReplace; InputToFind (str "foo");
                ClickFindAndReplace])
          = selected_writes (fresh (Resolved VUndefined))
            ++ concat (repeat [None; selected (fresh (Resolved VUndefined))] k).
Proof.
  apply (selection_restored unit unit (fresh (Resolved VUndefined))
           [ClickFindAndReplace; InputToFind (str "foo");
            ClickFindAndReplace]).
  reflexivity.
Defined.

Example two_refreshes :
  selected_writes
    (handle_all (fresh (Resolved VUndefined))
       [ClickFindAndReplace; InputToFind (str "foo"); ClickFindAndReplace])
  = [None; Some tt; None; Some tt].
Proof. reflexivity. Qed.

End ViewFrame.

(* ================================================================== *)
(** ** More on the view: which messages are displayed *)
(* ================================================================== *)

Module ViewMessages.
Import JS View Pending.

(** Plain code units are taken into the string one by one. *)
Lemma run_plain (text rest : jsstring) (is_key : bool) (acc : jsstring)
    (stack : list frame) :
  forallb plain_unit text = true ->
  run (text ++ rest) (MString is_key acc, stack)
  = run rest (MString is_key (rev text ++ acc), stack).
Proof.
  revert acc. induction text as [|c text IH]; intros acc Hp; [reflexivity|].
  simpl in Hp. apply andb_true_iff in Hp. destruct Hp as [Hc Hp].
  unfold plain_unit in Hc.
  apply andb_true_iff in Hc. destruct Hc as [Hc H92].
  apply andb_true_iff in Hc. destruct Hc as [H32 H34].
  apply negb_true_iff in H32, H34, H92.
  cbn [app run step]. rewrite H34, H92, H32.
  rewrite IH by exact Hp. cbn [rev]. rewrite <- app_assoc. reflexivity.
Qed.

(** The text of [structured] parses to the object it spells. *)
Lemma JSON_parse_structured (text : jsstring) :
  forallb plain_unit text = true ->
  JSON_parse (structured text)
  = Normal (VObject [(str "message", VString text)]).
Proof.
  intros Hp. unfold JSON_parse.
  change (run (text ++ 34%N :: str "}")
              (MString false [], [FMember [] (str "message")])
          = Normal (VObject [(str "message", VString text)])).
  rewrite run_plain by exact Hp.
  cbn. rewrite app_nil_r, rev_involutive. reflexivity.
Qed.

(** A text that cannot start a JSON text is not one. *)
Lemma JSON_parse_not_json (c : N) (rest : jsstring) :
  starts_json c = false -> JSON_parse (c :: rest) = Throw SyntaxError.
Proof.
  unfold starts_json. intros H.
  unfold JSON_parse. cbn [run step].
  destruct (is_ws c); [discriminate H|]. cbn [orb] in H.
  repeat (apply orb_false_iff in H; destruct H as [H ?]).
  unfold start_value.
  assert (H48 : (c =? 48)%N = false).
  { destruct (N.eqb_spec c 48) as [->|]; [discriminate|reflexivity]. }
  repeat match goal with
         | E : ?b = false |- context [if ?b then _ else _] => rewrite E
         end.
  reflexivity.
Qed.

Section Messages.

Variable ModifierView : Type.
Variable Selection : Type.

(** X7.  When a rejected call's message is not JSON, or is the JSON text
    of [null], the error paragraph is rendered exactly when the message is
    not the empty string; a rejection with an empty message therefore
    shows nothing at all, while the view stays open. *)
Theorem fallback_shown_iff_nonempty (st : State ModifierView Selection)
    (resource : Resource) (err : Error) :
  selectedResource st = Some resource ->
  find_and_replace resource (toFind st) (toReplace st)
    (nullTerminated st) (allowOverflow st) = Rejected err ->
  (((exists e, JSON_parse (message err) = Throw e)
    \/ JSON_parse (message err) = Normal VNull) ->
   error_shown (findAndReplace st)
   = match message err with [] => false | _ :: _ => true end)
  /\ (message err = [] ->
      errorMessage (findAndReplace st) = VString []
      /\ error_shown (findAndReplace st) = false
      /\ modifierView (findAndReplace st) = modifierView st).
Proof.
  intros Hres Hcall.
  pose proof (ViewFacts.rejected_sets_errorMessage _ _ st resource err
                Hres Hcall) as Herr.
  assert (Hfall : ((exists e, JSON_parse (message err) = Throw e)
                   \/ JSON_parse (message err) = Normal VNull) ->
                  errorMessage (findAndReplace st) = VString (message err)).
  { intros H. apply ViewFacts.parsed_message_throws in H.
    destruct H as [e He]. rewrite Herr, He. reflexivity. }
  split.
  - intros H. unfold error_shown. rewrite (Hfall H). reflexivity.
  - intros Hempty.
    assert (Hraw : errorMessage (findAndReplace st) = VString []).
    { rewrite <- Hempty. apply Hfall. left. exists SyntaxError.
      rewrite Hempty. reflexivity. }
    split; [exact Hraw|]. split.
    + unfold error_shown. rewrite Hraw. reflexivity.
    + unfold findAndReplace. rewrite Hres, Hcall.
      destruct (ViewFrame.on_error_fields _ _ err
                  (trace_call (mkCall (toFind st) (toReplace st)
                                 (nullTerminated st) (allowOverflow st)) st))
        as (-> & _).
      reflexivity.
Qed.

(** X8.  When a rejected call's message is the JSON object whose only
    member is [message], a string of plain code units (no control
    character, quote or backslash), [errorMessage] becomes exactly that
    string, and it is rendered unless it is empty. *)
Theorem structured_message_displayed (st : State ModifierView Selection)
    (resource : Resource) (text : jsstring) :
  forallb plain_unit text = true ->
  selectedResource st = Some resource ->
  find_and_replace resource (toFind st) (toReplace st)
    (nullTerminated st) (allowOverflow st)
  = Rejected (mkError (structured text)) ->
  errorMessage (findAndReplace st) = VString text
  /\ error_shown (findAndReplace st)
     = match text with [] => false | _ :: _ => true end.
Proof.
  intros Hp Hres Hcall.
  pose proof (ViewFacts.rejected_sets_errorMessage _ _ st resource _
                Hres Hcall) as Herr.
  unfold parsed_message, bind in Herr. cbn [message] in Herr.
  rewrite (JSON_parse_structured text Hp) in Herr.
  change (get_message (VObject [(str "message", VString text)]))
    with (@Normal value (VString text)) in Herr.
  unfold error_shown. rewrite Herr. split; reflexivity.
Qed.

(** X9.  When a rejected call's message starts with a code unit no JSON
    text can start with (a capital letter, say), the message is displayed
    as it is. *)
Theorem plain_message_displayed (st : State ModifierView Selection)
    (resource : Resource) (c : N) (rest : jsstring) :
  starts_json c = false ->
  selectedResource st = Some resource ->
  find_and_replace resource (toFind st) (toReplace st)
    (nullTerminated st) (allowOverflow st)
  = Rejected (mkError (c :: rest)) ->
  errorMessage (findAndReplace st) = VString (c :: rest)
  /\ error_shown (findAndReplace st) = true.
Proof.
  intros Hc Hres Hcall.
  pose proof (ViewFacts.rejected_sets_errorMessage _ _ st resource _
                Hres Hcall) as Herr.
  unfold parsed_message, bind in Herr. cbn [message] in Herr.
  rewrite (JSON_parse_not_json c rest Hc) in Herr.
  unfold error_shown. rewrite Herr. split; reflexivity.
Qed.

End Messages.

(** Witness of X7: a rejection with an empty message. *)
Lemma fallback_shown_iff_nonempty_witness :
  (((exists e, JSON_parse (message (mkError [])) = Throw e)
    \/ JSON_parse (message (mkError [])) = Normal VNull) ->
   error_shown (findAndReplace (fresh (Rejected (mkError []))))
   = match message (mkError []) with [] => false | _ :: _ => true end)
  /\ (message (mkError []) = [] ->
      errorMessage (findAndReplace (fresh (Rejected (mkError []))))
      = VString []
      /\ error_shown (findAndReplace (fresh (Rejected (mkError []))))
         = false
      /\ modifierView (findAndReplace (fresh (Rejected (mkError []))))
         = modifierView (fresh (Rejected (mkError [])))).
Proof.
  apply (fallback_shown_iff_nonempty unit unit
           (fresh (Rejected (mkError [])))
           (settling (Rejected (mkError []))) (mkError []));
    reflexivity.
Defined.

(** Witness of X8: the structured error of a missing pattern. *)
Lemma structured_message_displayed_witness :
  errorMessage
    (findAndReplace
       (fresh (Rejected (mkError (structured (str "pattern not found"))))))
  = VString (str "pattern not found")
  /\ error_shown
       (findAndReplace
          (fresh (Rejected (mkError (structured (str "pattern not found"))))))
     = match str "pattern not found" with [] => false | _ :: _ => true end.
Proof.
  apply (structured_message_displayed unit unit
           (fresh (Rejected (mkError (structured (str "pattern not found")))))
           (settling
              (Rejected (mkError (structured (str "pattern not found")))))
           (str "pattern not found"));
    reflexivity.
Defined.

(** Witness of X9: a plain-text error. *)
Lemma plain_message_displayed_witness :
  errorMessage
    (findAndReplace
       (fresh (Rejected (mkError (73%N :: str "nternal Server Error")))))
  = VString (73%N :: str "nternal Server Error")
  /\ error_shown
       (findAndReplace
          (fresh (Rejected (mkError (73%N :: str "nternal Server Error")))))
     = true.
Proof.
  apply (plain_message_displayed unit unit
           (fresh (Rejected (mkError (73%N :: str "nternal Server Error"))))
           (settling
              (Rejected (mkError (73%N :: str "nternal Server Error"))))
           73%N (str "nternal Server Error"));
    reflexivity.
Defined.

End ViewMessages.

(* ================================================================== *)
(** ** More on the view: while the engine call is pending *)
(* ================================================================== *)

Module PendingFacts.
Import JS View Pending.

Section Suspended.

Variable ModifierView : Type.
Variable Selection : Type.

(** Beginning a call changes the traces only. *)
Lemma begin_selected (a : Async ModifierView Selection) (resource : Resource) :
  selectedResource (component a) = Some resource ->
  begin a
  = mkAsync (trace_call (mkCall (toFind (component a))
                           (toReplace (component a))
                           (nullTerminated (component a))
                           (allowOverflow (component a))) (component a))
            (S (pending a)).
Proof. intros H. unfold begin. rewrite H. reflexivity. Qed.

(** X11.  Nothing guards against clicking again while a call is pending:
    with a resource selected, [k] clicks in a row make [k] engine calls
    with the same arguments and leave [k] more calls pending, the view
    still open as it was and [errorMessage] untouched. *)
Theorem repeated_clicks_repeat_calls (a : Async ModifierView Selection)
    (resource : Resource) (k : nat) :
  selectedResource (component a) = Some resource ->
  calls (component (async_run a (repeat (UI ClickFindAndReplace) k)))
  = calls (component a)
    ++ repeat (mkCall (toFind (component a)) (toReplace (component a))
                 (nullTerminated (component a))
                 (allowOverflow (component a))) k
  /\ pending (async_run a (repeat (UI ClickFindAndReplace) k))
     = pending a + k
  /\ modifierView (component (async_run a (repeat (UI ClickFindAndReplace) k)))
     = modifierView (component a)
  /\ errorMessage (component (async_run a (repeat (UI ClickFindAndReplace) k)))
     = errorMessage (component a)
  /\ selected_writes
       (component (async_run a (repeat (UI ClickFindAndReplace) k)))
     = selected_writes (component a).
Proof.
  revert a. induction k as [|k IH]; intros a Hres.
  - simpl. rewrite app_nil_r, Nat.add_0_r. repeat split.
  - unfold async_run. cbn [repeat fold_left async_step].
    rewrite (begin_selected a resource Hres).
    match goal with
    | |- context [fold_left async_step _ ?b] =>
        destruct (IH b) as (H1 & H2 & H3 & H4 & H5); [exact Hres|]
    end.
    unfold async_run in H1, H2, H3, H4, H5.
    rewrite H1, H2, H3, H4, H5. cbn.
    rewrite <- app_assoc. repeat split. lia.
Qed.

(** Events other than the click, while calls are pending, are the
    component's own. *)
Lemma async_run_quiet (a : Async ModifierView Selection)
    (events : list (Event Selection)) :
  clicks events = 0 ->
  async_run a (map UI events)
  = mkAsync (handle_all (component a) events) (pending a).
Proof.
  revert a. induction events as [|e events IH]; intros a Hc.
  - destruct a. reflexivity.
  - unfold clicks in Hc. simpl in Hc.
    destruct (is_click e) eqn:He; [discriminate Hc|].
    unfold async_run. cbn [map fold_left].
    assert (Hstep : async_step a (UI e)
                    = mkAsync (handle (component a) e) (pending a)).
    { destruct e; try reflexivity. discriminate He. }
    rewrite Hstep.
    exact (IH (mkAsync (handle (component a) e) (pending a)) Hc).
Qed.

(** Tracing a call and handling events other than the click commute. *)
Lemma handle_all_trace_call (st : State ModifierView Selection) (c : Call)
    (events : list (Event Selection)) :
  clicks events = 0 ->
  handle_all (trace_call c st) events = trace_call c (handle_all st events).
Proof.
  revert st. induction events as [|e events IH]; intros st Hc; [reflexivity|].
  unfold clicks in Hc. simpl in Hc.
  destruct (is_click e) eqn:He; [discriminate Hc|].
  unfold handle_all. cbn [fold_left].
  assert (Hstep : handle (trace_call c st) e = trace_call c (handle st e)).
  { destruct e; try reflexivity. discriminate He. }
  rewrite Hstep. exact (IH (handle st e) Hc).
Qed.

(** X12.  Whatever happens in the page while the call is pending (typing,
    ticking, Cancel, a change of selection), short of another click: the
    engine has received the values of the moment of the click, and when
    the call resolves the view is closed and [$selected] is rewritten with
    the selection of the moment of the resolution. *)
Theorem edits_while_pending (a : Async ModifierView Selection)
    (resource : Resource) (events : list (Event Selection))
    (result : value) :
  selectedResource (component a) = Some resource ->
  clicks events = 0 ->
  calls (component
           (async_run a (UI ClickFindAndReplace :: map UI events
                         ++ [Settle (Resolved result)])))
  = calls (component a)
    ++ [mkCall (toFind (component a)) (toReplace (component a))
          (nullTerminated (component a)) (allowOverflow (component a))]
  /\ modifierView
       (component
          (async_run a (UI ClickFindAndReplace :: map UI events
                        ++ [Settle (Resolved result)])))
     = None
  /\ selected
       (component
          (async_run a (UI ClickFindAndReplace :: map UI events
                        ++ [Settle (Resolved result)])))
     = selected (handle_all (component a) events)
  /\ selected_writes
       (component
          (async_run a (UI ClickFindAndReplace :: map UI events
                        ++ [Settle (Resolved result)])))
     = selected_writes (component a)
       ++ [None; selected (handle_all (component a) events)]
  /\ pending (async_run a (UI ClickFindAndReplace :: map UI events
                           ++ [Settle (Resolved result)]))
     = pending a.
Proof.
  intros Hres Hc.
  set (call := mkCall (toFind (component a)) (toReplace (component a))
                 (nullTerminated (component a))
                 (allowOverflow (component a))).
  assert (Hrun : async_run a (UI ClickFindAndReplace :: map UI events
                              ++ [Settle (Resolved result)])
                 = resume (Resolved result)
                     (mkAsync (handle_all (trace_call call (component a))
                                 events)
                              (S (pending a)))).
  { unfold async_run. cbn [fold_left async_step].
    rewrite (begin_selected a resource Hres). fold call.
    rewrite fold_left_app. cbn [fold_left async_step].
    f_equal.
    exact (async_run_quiet
             (mkAsync (trace_call call (component a)) (S (pending a)))
             events Hc). }
  rewrite Hrun. unfold resume. cbn [pending component].
  rewrite (handle_all_trace_call (component a) call events Hc).
  destruct (ViewFrame.handle_all_quiet _ _ (component a) events Hc)
    as (Hcalls & Hwrites & _).
  destruct (ViewFacts.close_and_refresh _ _
              (trace_call call (handle_all (component a) events)))
    as (Hv & Hw & Hs & _ & Hk).
  rewrite Hv, Hw, Hs, Hk. cbn [calls selected_writes selected trace_call].
  rewrite Hcalls, Hwrites. repeat split.
Qed.

End Suspended.

(** Witness of X11: two clicks before the first call settles. *)
Lemma repeated_clicks_repeat_calls_witness :
  calls (component (async_run (idle (Resolved VUndefined))
                      (repeat (UI ClickFindAndReplace) 2)))
  = calls (component (idle (Resolved VUndefined)))
    ++ repeat (mkCall None None true false) 2
  /\ pending (async_run (idle (Resolved VUndefined))
                (repeat (UI ClickFindAndReplace) 2))
     = pending (idle (Resolved VUndefined)) + 2
  /\ modifierView (component (async_run (idle (Resolved VUndefined))
                                (repeat (UI ClickFindAndReplace) 2)))
     = modifierView (component (idle (Resolved VUndefined)))
  /\ errorMessage (component (async_run (idle (Resolved VUndefined))
                                (repeat (UI ClickFindAndReplace) 2)))
     = errorMessage (component (idle (Resolved VUndefined)))
  /\ selected_writes
       (component (async_run (idle (Resolved VUndefined))
                     (repeat (UI ClickFindAndReplace) 2)))
     = selected_writes (component (idle (Resolved VUndefined))).
Proof.
  apply (repeated_clicks_repeat_calls unit unit (idle (Resolved VUndefined))
           (settling (Resolved VUndefined)) 2).
  reflexivity.
Defined.

(** Witness of X12: the find text is retyped and the selection dropped
    while the call is pending. *)
Lemma edits_while_pending_witness :
  calls (component
           (async_run (idle (Resolved VUndefined))
              (UI ClickFindAndReplace
               :: map UI [InputToFind (str "late"); StoresChange None None]
               ++ [Settle (Resolved VUndefined)])))
  = calls (component (idle (Resolved VUndefined)))
    ++ [mkCall None None true false]
  /\ modifierView
       (component
          (async_run (idle (Resolved VUndefined))
             (UI ClickFindAndReplace
              :: map UI [InputToFind (str "late"); StoresChange None None]
              ++ [Settle (Resolved VUndefined)])))
     = None
  /\ selected
       (component
          (async_run (idle (Resolved VUndefined))
             (UI ClickFindAndReplace
              :: map UI [InputToFind (str "late"); StoresChange None None]
              ++ [Settle (Resolved VUndefined)])))
     = selected (handle_all (component (idle (Resolved VUndefined)))
                   [InputToFind (str "late"); StoresChange None None])
  /\ selected_writes
       (component
          (async_run (idle (Resolved VUndefined))
             (UI ClickFindAndReplace
              :: map UI [InputToFind (str "late"); StoresChange None None]
              ++ [Settle (Resolved VUndefined)])))
     = selected_writes (component (idle (Resolved VUndefined)))
       ++ [None;
           selected (handle_all (component (idle (Resolved VUndefined)))
                       [InputToFind (str "late"); StoresChange None None])]
  /\ pending
       (async_run (idle (Resolved VUndefined))
          (UI ClickFindAndReplace
           :: map UI [InputToFind (str "late"); StoresChange None None]
           ++ [Settle (Resolved VUndefined)]))
     = pending (idle (Resolved VUndefined)).
Proof.
  apply (edits_while_pending unit unit (idle (Resolved VUndefined))
           (settling (Resolved VUndefined))
           [InputToFind (str "late"); StoresChange None None] VUndefined);
    reflexivity.
Defined.

Example late_selection_written :
  selected_writes
    (component
       (async_run (idle (Resolved VUndefined))
          (UI ClickFindAndReplace
           :: map UI [InputToFind (str "late"); StoresChange None None]
           ++ [Settle (Resolved VUndefined)])))
  = [None; None].
Proof. reflexivity. Qed.

End PendingFacts.
